(** * Email outreach demo: the retrying forwarder and the batch sequencer

    A shallow embedding of the two Next.js API routes
    ([app/api/email-preview/route.ts], [app/api/send-email/route.ts]) and of
    the batch handler of the demo page ([handleBatchSend]), with the
    properties the specification states about them.

    Conventions of the embedding:
    - a JavaScript value that came out of [JSON.parse] is a [json]; a value
      that may also be [undefined] is an [option json] ([None] is
      [undefined]);
    - a JSON number is an exact rational: rounding to a double is not
      modelled;
    - strings are sequences of 8-bit code units;
    - [await] is sequencing; a rejected promise and a [throw] are both the
      [Throw] result, and [try]/[catch] is a case analysis on the result;
    - the outside world (the AI backend for the routes, the browser's
      [fetch] for the page) is a state machine given as a parameter, and
      every call the code makes and every delay it awaits is appended to a
      trace. *)

From Stdlib Require Import ZArith QArith String Ascii DecimalString DecimalPos DecimalZ.
From stdpp Require Import base list gmap strings.

Open Scope string_scope.
Open Scope list_scope.
Open Scope nat_scope.
Set Warnings "-register-all".

(** ** JavaScript values *)

Inductive json : Type :=
| JNull
| JBool (b : bool)
| JNum (q : Q)
| JStr (s : string)
| JArr (items : list json)
| JObj (fields : list (string * json)).

(** [None] is [undefined]. *)
Definition value : Type := option json.

(** Every exception the code meets is an [Error] object; only its message
    is ever read. *)
Inductive Error : Type := Err (message : string).

Definition message (e : Error) : string := let 'Err m := e in m.

Inductive Result (A : Type) : Type :=
| Ok (a : A)
| Throw (e : Error).
Arguments Ok {A} a.
Arguments Throw {A} e.

#[global] Instance result_ret : MRet Result := λ A a, Ok a.
#[global] Instance result_bind : MBind Result :=
  λ A B k r, match r with Ok a => k a | Throw e => Throw e end.

(** A JS number: what [Number(...)] and [Math.min] produce. *)
Inductive number : Type :=
| NaN
| Infinity
| NegInfinity
| Finite (q : Q).

Definition string_of_Z (z : Z) : string := NilZero.string_of_int (Z.to_int z).

(** An object is held as its property list; the entry read for a key is
    the first one. *)
Fixpoint lookup_field (k : string) (fs : list (string * json)) : value :=
  match fs with
  | [] => None
  | (k', v) :: fs' => if String.eqb k k' then Some v else lookup_field k fs'
  end.

(** The [TypeError] of a read on [undefined] or [null] and of a call of
    something that is not a function. Its message differs between
    engines; one constant stands for it. *)
Definition TypeError : Error := Err "Cannot read properties of undefined".

(** [v.k] for the property names the code reads, none of which is
    inherited: reading a property of [undefined] or [null] throws; arrays
    and strings have [length]; the other primitives have no such
    property. *)
Definition get_prop (v : value) (k : string) : Result value :=
  match v with
  | None | Some JNull => Throw TypeError
  | Some (JObj fs) => Ok (lookup_field k fs)
  | Some (JArr l) =>
      Ok (if String.eqb k "length" then Some (JNum (inject_Z (Z.of_nat (length l)))) else None)
  | Some (JStr s) =>
      Ok (if String.eqb k "length" then Some (JNum (inject_Z (Z.of_nat (String.length s)))) else None)
  | Some (JBool _) | Some (JNum _) => Ok None
  end.

(** [v[0]] *)
Definition get_index0 (v : value) : Result value :=
  match v with
  | None | Some JNull => Throw TypeError
  | Some (JArr l) => Ok (head l)
  | Some (JStr (String c _)) => Ok (Some (JStr (String c EmptyString)))
  | Some (JStr EmptyString) => Ok None
  | Some (JObj fs) => Ok (lookup_field "0" fs)
  | Some (JBool _) | Some (JNum _) => Ok None
  end.

(** [payload.k], [undefined] where the read would not give a value. *)
Definition field (k : string) (payload : json) : value :=
  match get_prop (Some payload) k with
  | Ok v => v
  | Throw _ => None
  end.

(** JS truthiness. *)
Definition truthy (v : value) : bool :=
  match v with
  | None | Some JNull => false
  | Some (JBool b) => b
  | Some (JNum q) => negb (Qeq_bool q 0)
  | Some (JStr s) => negb (String.eqb s "")
  | Some (JArr _) | Some (JObj _) => true
  end.

(** [v === false] *)
Definition is_false (v : value) : bool :=
  match v with Some (JBool false) => true | _ => false end.

(** [v === s] for a string literal [s] *)
Definition is_string (s : string) (v : value) : bool :=
  match v with Some (JStr s') => String.eqb s' s | _ => false end.

(** [v === 0] *)
Definition is_zero (v : value) : bool :=
  match v with Some (JNum q) => Qeq_bool q 0 | _ => false end.

(** [Math.min(a, b)] *)
Definition Math_min (a b : number) : number :=
  match a, b with
  | NaN, _ | _, NaN => NaN
  | NegInfinity, _ | _, NegInfinity => NegInfinity
  | Infinity, y => y
  | x, Infinity => x
  | Finite p, Finite q => if Qle_bool p q then Finite p else Finite q
  end.

(** What [JSON.stringify] writes for a number-valued property, read back:
    a number that is not finite is written as [null]. *)
Definition JSON_number (n : number) : json :=
  match n with
  | Finite q => JNum q
  | _ => JNull
  end.

(** Properties whose value is [undefined] are left out by
    [JSON.stringify]. *)
Definition JSON_object (fs : list (string * value)) : json :=
  JObj (omap (λ kv, pair kv.1 <$> kv.2) fs).

(** ** Effects: state passing with exceptions *)

Definition Eff (St A : Type) : Type := St → Result A * St.

Definition lift {St A} (r : Result A) : Eff St A := λ s, (r, s).

Definition bind {St A B} (c : Eff St A) (k : A → Eff St B) : Eff St B :=
  λ s, match c s with
       | (Ok a, s') => k a s'
       | (Throw e, s') => (Throw e, s')
       end.

Notation "x <- c ;; k" := (bind c (λ x, k))
  (at level 100, c at next level, right associativity, only parsing).

(** ** The fetch [Response] *)

Record Response : Type := {
  resp_status : Z;
  resp_statusText : string;
  resp_text : Result string;   (* await response.text() *)
  resp_json : Result json      (* await response.json() *)
}.

(** [response.ok] *)
Definition resp_ok (r : Response) : bool :=
  (200 <=? resp_status r)%Z && (resp_status r <=? 299)%Z.

(** ** The API routes *)

Inductive Endpoint : Type := Generate | Send.

Inductive ServerEvent : Type :=
| EvBackendFetch (ep : Endpoint) (body : json)
| EvSleep (ms : Z).

(** [NextResponse.json(body, { status })] *)
Record NextResponse : Type := {
  nr_status : Z;
  nr_body : json
}.

Section Routes.

(** The external AI backend: a state machine answering a POST to one of
    its two endpoints. *)
Context {BState : Type}.
Variable backend : Endpoint → json → BState → Result Response * BState.

(** Built-ins of the platform that the routes call and whose value the
    properties below do not depend on. *)
Variable Number : string → number.
Variable toLowerCase : string → string.

Record World : Type := {
  backend_state : BState;
  trace : list ServerEvent
}.

(** [await fetch(`${BACKEND_API_URL}/<ep>`, { method: "POST", body })] *)
Definition backend_fetch (ep : Endpoint) (body : json) : Eff World Response :=
  λ w, let '(r, s') := backend ep body (backend_state w) in
       (r, {| backend_state := s'; trace := trace w ++ [EvBackendFetch ep body] |}).

(** [await new Promise(resolve => setTimeout(resolve, ms))] *)
Definition sleep (ms : Z) (w : World) : World :=
  {| backend_state := backend_state w; trace := trace w ++ [EvSleep ms] |}.

Definition backend_error (r : Response) (errorBody : string) : Error :=
  Err ("Backend API error: " +:+ string_of_Z (resp_status r) +:+ " "
         +:+ resp_statusText r +:+ " - " +:+ errorBody).

(** The [for (let i = 0; i < 3; i++)] loop of both routes, with [n] the
    number of iterations left and [response], [lastError] the two
    variables it assigns. *)
Fixpoint retry_loop (n : nat) (ep : Endpoint) (body : json)
    (response : option Response) (lastError : option Error) (w : World)
    : option Response * option Error * World :=
  match n with
  | O => (response, lastError, w)
  | S n' =>
      match backend_fetch ep body w with
      | (Ok r, w1) =>
          if resp_ok r then (Some r, None, w1)
          else
            let lastError' :=
              match resp_text r with
              | Ok errorBody => backend_error r errorBody
              | Throw error => error
              end in
            retry_loop n' ep body (Some r) (Some lastError') (sleep 1000 w1)
      | (Throw error, w1) =>
          retry_loop n' ep body response (Some error) (sleep 1000 w1)
      end
  end.

Definition retries_exhausted : Error :=
  Err "Backend request failed after multiple retries".

(** The loop followed by
    [if (!response || !response.ok) throw lastError || new Error(...)]. *)
Definition forward_with_retry (ep : Endpoint) (body : json) : Eff World Response :=
  λ w, let '(response, lastError, w') := retry_loop 3 ep body None None w in
       match response with
       | Some r =>
           if resp_ok r then (Ok r, w')
           else (Throw (default retries_exhausted lastError), w')
       | None => (Throw (default retries_exhausted lastError), w')
       end.

(** The forwarder as both routes use it: the loop, the check, and
    [await response.json()] on the response that passed. *)
Definition forward_json (ep : Endpoint) (body : json) : Eff World json :=
  response <- forward_with_retry ep body ;;
  lift (resp_json response).

(** *** [GET /api/email-preview] *)

(** [url.searchParams.get(name)]: the first value of the name. *)
Fixpoint searchParams_get (query : list (string * string)) (name : string)
    : option string :=
  match query with
  | [] => None
  | (k, v) :: query' =>
      if String.eqb k name then Some v else searchParams_get query' name
  end.

Definition mock_first_name (id : string) : string :=
  if String.eqb id "2" then "Sarah"
  else if String.eqb id "3" then "Carlos"
  else "John".

Definition generate_body (id tone : string) (variants creativity : number) : json :=
  JObj [ ("lead", JObj [ ("id", JStr id);
                         ("first_name", JStr (mock_first_name id));
                         ("last_name", JStr "Demo");
                         ("zip", JStr "90210");
                         ("insight", JStr "recently searched for coverage options");
                         ("business_specialization", JStr "Life insurance for new families") ]);
         ("tone", JStr tone);
         ("variants", JSON_number (Math_min variants (Finite 5)));
         ("temperature", JSON_number creativity) ].

(** [xs.slice(0, 3)] followed by [.map(...)]: only an array has both. *)
Definition slice_0_3 (v : value) : Result (list json) :=
  match v with
  | Some (JArr l) => Ok (take 3 l)
  | _ => Throw TypeError
  end.

(** [.map((v) => v.subject)] *)
Fixpoint map_subject (l : list json) : Result (list value) :=
  match l with
  | [] => Ok []
  | v :: l' =>
      subject ← get_prop (Some v) "subject";
      subjects ← map_subject l';
      Ok (subject :: subjects)
  end.

Definition rationale (first_name tone : string) : string :=
  "This message uses " +:+ first_name +:+
  "'s recent search intent and local context to establish relevance, offers a low-friction CTA (10-min call), and matches a "
  +:+ toLowerCase tone +:+ " tone.".

Definition default_model : json := JStr "google/gemma-2-27b-it:free".

(** Step 4 of the route: the body of the success response. Inside an
    array [JSON.stringify] writes [undefined] as [null]. *)
Definition format_preview (first_name tone : string) (data : json) : Result json :=
  variants ← get_prop (Some data) "variants";
  first3 ← slice_0_3 variants;
  subjectSuggestions ← map_subject first3;
  model ← get_prop (Some data) "model";
  Ok (JSON_object
        [ ("variants", variants);
          ("rationale", Some (JStr (rationale first_name tone)));
          ("subject_suggestions", Some (JArr (default JNull <$> subjectSuggestions)));
          ("model", if truthy model then model else Some default_model) ]).

Definition GET (query : list (string * string)) (w : World) : NextResponse * World :=
  let id := default "1" (searchParams_get query "id") in
  let tone := default "Friendly" (searchParams_get query "tone") in
  let variants := Number (default "3" (searchParams_get query "variants")) in
  let creativity := Number (default "0.6" (searchParams_get query "creativity")) in
  let backendRequestBody := generate_body id tone variants creativity in
  let attempt : Eff World json :=
    data <- forward_json Generate backendRequestBody ;;
    lift (format_preview (mock_first_name id) tone data) in
  match attempt w with
  | (Ok body, w') => ({| nr_status := 200; nr_body := body |}, w')
  | (Throw err, w') =>
      ({| nr_status := 500;
          nr_body := JObj [ ("error", JStr "failed to fetch from backend");
                            ("details", JStr (message err)) ] |}, w')
  end.

(** *** [POST /api/send-email] *)

Definition send_body (data : json) : Result json :=
  subject ← get_prop (Some data) "subject";
  body ← get_prop (Some data) "body";
  consent_snapshot ← get_prop (Some data) "consent_snapshot";
  Ok (JSON_object
        [ ("recipient_email", Some (JStr "test@example.com"));
          ("subject", subject);
          ("body", body);
          ("consent_snapshot", consent_snapshot) ]).

(** [request] is the outcome of [await req.json()]. *)
Definition POST (request : Result json) (w : World) : NextResponse * World :=
  let attempt : Eff World json :=
    data <- lift request ;;
    backendRequestBody <- lift (send_body data) ;;
    forward_json Send backendRequestBody in
  match attempt w with
  | (Ok responseData, w') => ({| nr_status := 200; nr_body := responseData |}, w')
  | (Throw err, w') =>
      ({| nr_status := 500;
          nr_body := JObj [ ("ok", JBool false);
                            ("error", JStr "Failed to send email via backend");
                            ("details", JStr (message err)) ] |}, w')
  end.

End Routes.

Arguments World : clear implicits.

(** ** The demo page: batch send *)

(** A lead as [/api/leads] serves it; the ids it serves are integers. *)
Record Lead : Type := {
  lead_id : Z;
  first_name : string;
  last_name : string;
  age : option Z;
  zip : option string;
  interest : option string;
  email : string;
  insight : option string;
  lead_status : option string
}.

Record BatchProgress : Type := {
  bp_total : nat;
  bp_completed : nat;
  bp_failed : nat;
  bp_current : option string
}.

Record BatchResults : Type := {
  sent : nat;
  failed : nat;
  total : nat
}.

(** The React state of [DemoPage] that [handleBatchSend] reads or writes.
    [creativity] is held by its [String(creativity)] rendering, the only
    form in which the handler uses it. *)
Record Page : Type := {
  leads : list Lead;
  tone : string;
  creativity : string;
  selectedLeadIds : gset Z;
  batchSending : bool;
  batchProgress : option BatchProgress;
  batchResults : option BatchResults;
  toast : option string
}.

Definition setLeads (f : list Lead → list Lead) (p : Page) : Page :=
  {| leads := f (leads p); tone := tone p; creativity := creativity p;
     selectedLeadIds := selectedLeadIds p; batchSending := batchSending p;
     batchProgress := batchProgress p; batchResults := batchResults p;
     toast := toast p |}.

Definition setSelectedLeadIds (ids : gset Z) (p : Page) : Page :=
  {| leads := leads p; tone := tone p; creativity := creativity p;
     selectedLeadIds := ids; batchSending := batchSending p;
     batchProgress := batchProgress p; batchResults := batchResults p;
     toast := toast p |}.

Definition setBatchSending (b : bool) (p : Page) : Page :=
  {| leads := leads p; tone := tone p; creativity := creativity p;
     selectedLeadIds := selectedLeadIds p; batchSending := b;
     batchProgress := batchProgress p; batchResults := batchResults p;
     toast := toast p |}.

Definition setBatchProgress (bp : option BatchProgress) (p : Page) : Page :=
  {| leads := leads p; tone := tone p; creativity := creativity p;
     selectedLeadIds := selectedLeadIds p; batchSending := batchSending p;
     batchProgress := bp; batchResults := batchResults p;
     toast := toast p |}.

Definition setBatchResults (br : option BatchResults) (p : Page) : Page :=
  {| leads := leads p; tone := tone p; creativity := creativity p;
     selectedLeadIds := selectedLeadIds p; batchSending := batchSending p;
     batchProgress := batchProgress p; batchResults := br;
     toast := toast p |}.

(** [showToast(msg)]: the toast is set; the timer that clears it later is
    not part of the handler's run. *)
Definition showToast (msg : string) (p : Page) : Page :=
  {| leads := leads p; tone := tone p; creativity := creativity p;
     selectedLeadIds := selectedLeadIds p; batchSending := batchSending p;
     batchProgress := batchProgress p; batchResults := batchResults p;
     toast := Some msg |}.

(** [{ ...l, status }] *)
Definition with_status (status : string) (l : Lead) : Lead :=
  {| lead_id := lead_id l; first_name := first_name l; last_name := last_name l;
     age := age l; zip := zip l; interest := interest l; email := email l;
     insight := insight l; lead_status := Some status |}.

(** [prev.map((l) => (l.id === id ? { ...l, status } : l))] *)
Definition mark_status (id : Z) (status : string) (prev : list Lead) : list Lead :=
  (λ l, if (lead_id l =? id)%Z then with_status status l else l) <$> prev.

Definition full_name (l : Lead) : string := first_name l +:+ " " +:+ last_name l.

(** The two requests the page makes to its own API routes. The query is
    held as the name/value pairs given to [URLSearchParams]; the body as
    the value given to [JSON.stringify]. *)
Inductive ClientRequest : Type :=
| GetEmailPreview (query : list (string * string))
| PostSendEmail (body : json).

Inductive PageEvent : Type :=
| EvFetch (req : ClientRequest)
| EvSetStatus (id : Z) (status : string)
| EvWait (ms : Z).

Section DemoPage.

(** The browser side of the world: what [fetch] answers, and the clock
    read by [new Date().toISOString()]. *)
Context {W : Type}.
Variable fetch : ClientRequest → W → Result Response * W.
Variable now : W → string.

Record Run : Type := {
  page : Page;
  world : W;
  events : list PageEvent
}.

Definition on_page (f : Page → Page) (r : Run) : Run :=
  {| page := f (page r); world := world r; events := events r |}.

Definition record (ev : PageEvent) (r : Run) : Run :=
  {| page := page r; world := world r; events := events r ++ [ev] |}.

(** [await fetch(...)] *)
Definition page_fetch (req : ClientRequest) : Eff Run Response :=
  λ r, let '(res, w') := fetch req (world r) in
       (res, {| page := page r; world := w'; events := events r ++ [EvFetch req] |}).

(** [setLeads((prev) => prev.map(...))] *)
Definition set_status (id : Z) (status : string) (r : Run) : Run :=
  record (EvSetStatus id status) (on_page (setLeads (mark_status id status)) r).

(** [await new Promise((resolve) => setTimeout(resolve, ms))] *)
Definition wait (ms : Z) (r : Run) : Run := record (EvWait ms) r.

Definition preview_query (tone creativity : string) (lead : Lead)
    : list (string * string) :=
  [ ("id", string_of_Z (lead_id lead));
    ("tone", tone);
    ("variants", string_of_Z 1);
    ("creativity", creativity) ].

(** Lines 256-275: ask for one variant and take the first. *)
Definition generate_variant (tone creativity : string) (lead : Lead) : Eff Run value :=
  previewRes <- page_fetch (GetEmailPreview (preview_query tone creativity lead)) ;;
  _ <- lift (if resp_ok previewRes then Ok ()
             else errorText ← resp_text previewRes;
                  Throw (Err ("Preview generation failed: " +:+ errorText))) ;;
  previewData <- lift (resp_json previewRes) ;;
  variants <- lift (get_prop (Some previewData) "variants") ;;
  len <- lift (get_prop variants "length") ;;
  _ <- lift (if is_zero len then Throw (Err "No variants generated") else Ok ()) ;;
  lift (get_index0 variants).

Definition send_request (lead : Lead) (variant : value) (captured_at : string)
    : Result json :=
  variantId ← get_prop variant "id";
  subject ← get_prop variant "subject";
  body ← get_prop variant "body";
  Ok (JSON_object
        [ ("leadId", Some (JNum (inject_Z (lead_id lead))));
          ("variantId", variantId);
          ("subject", subject);
          ("body", body);
          ("consent_snapshot",
            Some (JObj [ ("source", JStr "batch_demo");
                         ("captured_at", JStr captured_at);
                         ("exact_text", JStr "Batch send via demo") ])) ]).

(** The condition of line 297:
    [!sendRes.ok || sendData.ok === false ||
     (sendData.status && sendData.status !== "success")]. *)
Definition send_rejected (sendRes : Response) (sendData : json) : Result bool :=
  if negb (resp_ok sendRes) then Ok true
  else
    ok ← get_prop (Some sendData) "ok";
    if is_false ok then Ok true
    else
      status ← get_prop (Some sendData) "status";
      Ok (truthy status && negb (is_string "success" status)).

(** Lines 278-299. The message of the [Error] thrown on a rejected send
    interpolates fields of the payload; it only reaches the console and
    is left out. *)
Definition send_variant (lead : Lead) (variant : value) : Eff Run unit :=
  body <- (λ r, (send_request lead variant (now (world r)), r)) ;;
  sendRes <- page_fetch (PostSendEmail body) ;;
  sendData <- lift (resp_json sendRes) ;;
  rejected <- lift (send_rejected sendRes sendData) ;;
  lift (if rejected : bool then Throw (Err "Send failed") else Ok ()).

(** The [try] block of the loop body, up to the send check. *)
Definition try_lead (tone creativity : string) (lead : Lead) : Eff Run unit :=
  variant <- generate_variant tone creativity lead ;;
  send_variant lead variant.

(** The loop variables of [handleBatchSend]. *)
Record Loop : Type := {
  run : Run;
  sentCount : nat;
  failedCount : nat
}.

Definition progress (selectedLeads : list Lead) (b : Loop) (current : option string)
    : option BatchProgress :=
  Some {| bp_total := length selectedLeads; bp_completed := sentCount b;
          bp_failed := failedCount b; bp_current := current |}.

(** One iteration of the loop, for [lead = selectedLeads[i]]. *)
Definition batch_iteration (tone creativity : string) (selectedLeads : list Lead)
    (i : nat) (lead : Lead) (b : Loop) : Loop :=
  let r0 := on_page (setBatchProgress (progress selectedLeads b (Some (full_name lead))))
                    (run b) in
  let b1 :=
    match try_lead tone creativity lead r0 with
    | (Ok _, r1) =>
        {| run := set_status (lead_id lead) "sent" r1;
           sentCount := S (sentCount b); failedCount := failedCount b |}
    | (Throw e, r1) =>
        {| run := set_status (lead_id lead) "failed" r1;
           sentCount := sentCount b; failedCount := S (failedCount b) |}
    end in
  let next :=
    if (i <? length selectedLeads - 1)%nat
    then full_name <$> selectedLeads !! (i + 1)
    else None in
  let r2 := on_page (setBatchProgress (progress selectedLeads b1 next)) (run b1) in
  {| run := wait 500 r2; sentCount := sentCount b1; failedCount := failedCount b1 |}.

(** [for (let i = 0; i < selectedLeads.length; i++)], with [rest] the
    leads from index [i] on. *)
Fixpoint batch_loop (tone creativity : string) (selectedLeads : list Lead)
    (i : nat) (rest : list Lead) (b : Loop) : Loop :=
  match rest with
  | [] => b
  | lead :: rest' =>
      batch_loop tone creativity selectedLeads (S i) rest'
        (batch_iteration tone creativity selectedLeads i lead b)
  end.

Definition summary (sentCount failedCount : nat) : string :=
  if (0 <? sentCount)%nat
  then "Successfully sent " +:+ string_of_Z (Z.of_nat sentCount) +:+ " email"
       +:+ (if (1 <? sentCount)%nat then "s" else "")
       +:+ (if (0 <? failedCount)%nat
            then ", " +:+ string_of_Z (Z.of_nat failedCount) +:+ " failed"
            else "")
  else "All emails failed to send".

Definition selected_leads (p : Page) : list Lead :=
  filter (λ l, lead_id l ∈ selectedLeadIds p) (leads p).

Definition handleBatchSend (r : Run) : Run :=
  if (size (selectedLeadIds (page r)) =? 0)%nat
  then on_page (showToast "Please select at least one lead") r
  else
    let selectedLeads := selected_leads (page r) in
    let r1 :=
      on_page (setBatchResults None)
        (on_page (setBatchProgress
                    (Some {| bp_total := length selectedLeads; bp_completed := 0;
                             bp_failed := 0; bp_current := None |}))
           (on_page (setBatchSending true) r)) in
    let b := batch_loop (tone (page r)) (creativity (page r)) selectedLeads 0 selectedLeads
               {| run := r1; sentCount := 0; failedCount := 0 |} in
    let r2 :=
      on_page (setSelectedLeadIds ∅)
        (on_page (setBatchResults
                    (Some {| sent := sentCount b; failed := failedCount b;
                             total := length selectedLeads |}))
           (on_page (setBatchSending false)
              (on_page (setBatchProgress None) (run b)))) in
    on_page (showToast (summary (sentCount b) (failedCount b))) r2.

End DemoPage.

Arguments Run : clear implicits.
Arguments Loop : clear implicits.

(** ** The page served by the routes *)

Section Deployment.

Context {BState : Type}.
Variable backend : Endpoint → json → BState → Result Response * BState.
Variable Number : string → number.
Variable toLowerCase : string → string.
Variable JSON_stringify : json → string.

Definition reason_phrase (status : Z) : string :=
  if (status =? 200)%Z then "OK" else "Internal Server Error".

(** A [NextResponse] as the page's [fetch] receives it. *)
Definition http_response (nr : NextResponse) : Response :=
  {| resp_status := nr_status nr;
     resp_statusText := reason_phrase (nr_status nr);
     resp_text := Ok (JSON_stringify (nr_body nr));
     resp_json := Ok (nr_body nr) |}.

(** The page's [fetch] when its two requests reach the two routes: the
    query arrives as sent, and [req.json()] gives back the body that
    was stringified. *)
Definition route_fetch (req : ClientRequest) (w : World BState)
    : Result Response * World BState :=
  match req with
  | GetEmailPreview query =>
      let '(nr, w') := GET backend Number toLowerCase query w in
      (Ok (http_response nr), w')
  | PostSendEmail body =>
      let '(nr, w') := POST backend (Ok body) w in
      (Ok (http_response nr), w')
  end.

End Deployment.

(** ** Platform functions and stubs used by the examples *)

(** [Number(s)] on a string, following the StringNumericLiteral grammar:
    surrounding white space, the empty string as 0, a signed decimal
    literal with optional fraction and exponent, [Infinity], and unsigned
    hexadecimal, octal and binary integer literals; anything else is
    [NaN]. *)
Module StringToNumber.

Definition is_space (c : ascii) : bool :=
  let n := nat_of_ascii c in
  ((9 <=? n) && (n <=? 13) || (n =? 32) || (n =? 160))%nat.

Fixpoint drop_spaces (l : list ascii) : list ascii :=
  match l with
  | c :: l' => if is_space c then drop_spaces l' else l
  | [] => []
  end.

Definition trim (l : list ascii) : list ascii :=
  rev (drop_spaces (rev (drop_spaces l))).

Definition digit_of (base : Z) (c : ascii) : option Z :=
  let n := Z.of_nat (nat_of_ascii c) in
  let d :=
    if (48 <=? n)%Z && (n <=? 57)%Z then Some (n - 48)%Z
    else if (97 <=? n)%Z && (n <=? 102)%Z then Some (n - 87)%Z
    else if (65 <=? n)%Z && (n <=? 70)%Z then Some (n - 55)%Z
    else None in
  match d with
  | Some v => if (v <? base)%Z then Some v else None
  | None => None
  end.

(** Reads the longest run of digits, continuing the value [acc]; returns
    the value, the number of digits read and what follows them. *)
Fixpoint read_digits (base acc : Z) (count : nat) (l : list ascii)
    : Z * nat * list ascii :=
  match l with
  | c :: l' =>
      match digit_of base c with
      | Some d => read_digits base (base * acc + d)%Z (S count) l'
      | None => (acc, count, l)
      end
  | [] => (acc, count, [])
  end.

(** [m * 10^e] *)
Definition scale (m e : Z) : Q :=
  if (0 <=? e)%Z then inject_Z (m * 10 ^ e)
  else Qmake m (Z.to_pos (10 ^ (- e))).

(** An optional exponent part, up to the end of the literal. *)
Definition read_exponent (l : list ascii) : option Z :=
  match l with
  | [] => Some 0%Z
  | c :: l' =>
      if Ascii.eqb c "e" || Ascii.eqb c "E" then
        let '(sign, l'') :=
          match l' with
          | c' :: r =>
              if Ascii.eqb c' "+" then (1%Z, r)
              else if Ascii.eqb c' "-" then ((-1)%Z, r)
              else (1%Z, l')
          | [] => (1%Z, l')
          end in
        match read_digits 10 0 0 l'' with
        | (v, S _, []) => Some (sign * v)%Z
        | _ => None
        end
      else None
  end.

Definition unsigned_decimal (l : list ascii) : option Q :=
  let '(ip, n1, rest) := read_digits 10 0 0 l in
  let '(m, n2, rest') :=
    match rest with
    | c :: r => if Ascii.eqb c "." then read_digits 10 ip 0 r else (ip, 0%nat, rest)
    | [] => (ip, 0%nat, rest)
    end in
  if (n1 + n2 =? 0)%nat then None
  else match read_exponent rest' with
       | Some e => Some (scale m (e - Z.of_nat n2))
       | None => None
       end.

Definition signed_decimal (l : list ascii) : number :=
  let '(negative, l') :=
    match l with
    | c :: r =>
        if Ascii.eqb c "+" then (false, r)
        else if Ascii.eqb c "-" then (true, r)
        else (false, l)
    | [] => (false, l)
    end in
  if String.eqb (string_of_list_ascii l') "Infinity"
  then (if negative then NegInfinity else Infinity)
  else match unsigned_decimal l' with
       | Some q => Finite (if negative then (- q)%Q else q)
       | None => NaN
       end.

Definition prefixed (base : Z) (l : list ascii) : number :=
  match read_digits base 0 0 l with
  | (v, S _, []) => Finite (inject_Z v)
  | _ => NaN
  end.

Definition Number (s : string) : number :=
  match trim (list_ascii_of_string s) with
  | [] => Finite 0
  | (c0 :: c1 :: r) as l =>
      if Ascii.eqb c0 "0" && (Ascii.eqb c1 "x" || Ascii.eqb c1 "X") then prefixed 16 r
      else if Ascii.eqb c0 "0" && (Ascii.eqb c1 "o" || Ascii.eqb c1 "O") then prefixed 8 r
      else if Ascii.eqb c0 "0" && (Ascii.eqb c1 "b" || Ascii.eqb c1 "B") then prefixed 2 r
      else signed_decimal l
  | l => signed_decimal l
  end.

End StringToNumber.

(** [s.toLowerCase()] on the ASCII letters. *)
Definition toLowerCase_ascii (s : string) : string :=
  string_of_list_ascii
    ((λ c, let n := nat_of_ascii c in
           if ((65 <=? n) && (n <=? 90))%nat then ascii_of_nat (n + 32) else c)
       <$> list_ascii_of_string s).

Module Stub.

Definition dq : string := String (ascii_of_nat 34) EmptyString.

(** One generated variant whose subject is the lead's first name. *)
Definition variant_for (first_name : value) : json :=
  JSON_object [ ("id", Some (JStr "v1"));
                ("subject", first_name);
                ("body", Some (JStr "Hello"));
                ("used_tokens", Some (JArr [JStr "first_name"])) ].

Definition generated (body : json) : json :=
  JObj [ ("variants",
           JArr [ variant_for
                    (match get_prop (Some body) "lead" with
                     | Ok lead => match get_prop lead "first_name" with
                                  | Ok n => n
                                  | Throw _ => None
                                  end
                     | Throw _ => None
                     end) ]);
         ("model", JStr "stub-model") ].

(** A 200 response carrying [payload]. The code never reads the text of
    a response that passed; the stubs spell it out for [delivered] only. *)
Definition success (payload : json) (text : string) : Response :=
  {| resp_status := 200; resp_statusText := "OK";
     resp_text := Ok text; resp_json := Ok payload |}.

Definition delivered : Response :=
  success (JObj [("status", JStr "success")])
          ("{" +:+ dq +:+ "status" +:+ dq +:+ ":" +:+ dq +:+ "success" +:+ dq +:+ "}").

Definition unavailable : Response :=
  {| resp_status := 503; resp_statusText := "Service Unavailable";
     resp_text := Ok "upstream down";
     resp_json := Throw (Err "Unexpected token u in JSON at position 0") |}.

Definition refused : Error := Err "fetch failed".

(** A backend whose state counts the calls made so far and whose first
    [k] calls fail: the first by a transport error, the later ones with
    a 503. After that [/generate] returns one variant and [/send]
    reports success. *)
Definition flaky (k : nat) (ep : Endpoint) (body : json) (calls : nat)
    : Result Response * nat :=
  (if (calls <? k)%nat
   then (if (calls =? 0)%nat then Throw refused else Ok unavailable)
   else match ep with
        | Generate => Ok (success (generated body) "")
        | Send => Ok delivered
        end,
   S calls).

(** A backend that always answers: [/generate] with one variant,
    [/send] with [{ ok: false }] when the subject is [rejected] and with
    success otherwise. *)
Definition by_subject (rejected : string) (ep : Endpoint) (body : json) (calls : nat)
    : Result Response * nat :=
  (match ep with
   | Generate => Ok (success (generated body) "")
   | Send =>
       if is_string rejected (field "subject" body)
       then Ok (success (JObj [("ok", JBool false)]) "")
       else Ok delivered
   end, S calls).

Definition start : World nat := {| backend_state := 0; trace := [] |}.

End Stub.

Module Scenario.

Definition lead (id : Z) (first last mail : string) : Lead :=
  {| lead_id := id; first_name := first; last_name := last; age := None;
     zip := None; interest := None; email := mail; insight := None;
     lead_status := None |}.

Definition john : Lead := lead 1 "John" "Doe" "john@example.com".
Definition sarah : Lead := lead 2 "Sarah" "Smith" "sarah@example.com".
Definition carlos : Lead := lead 3 "Carlos" "Diaz" "carlos@example.com".

Definition page_with (ls : list Lead) (ids : gset Z) : Page :=
  {| leads := ls; tone := "Friendly"; creativity := "0.6";
     selectedLeadIds := ids; batchSending := false;
     batchProgress := None; batchResults := None; toast := None |}.

Definition start (p : Page) : Run unit := {| page := p; world := (); events := [] |}.

Definition clock {W : Type} (_ : W) : string := "2024-01-01T00:00:00.000Z".

Definition one_variant : json :=
  JObj [ ("variants", JArr [Stub.variant_for (Some (JStr "Hello"))]);
         ("rationale", JStr "r");
         ("subject_suggestions", JArr [JStr "Hello"]);
         ("model", JStr "stub-model") ].

(** The page's [fetch] as a test double: every preview has one variant;
    the send for lead [rejected] is answered with [payload], every
    other send with [{ ok: true }]. *)
Definition fetch_rejecting (rejected : Z) (payload : json) (req : ClientRequest) (_ : unit)
    : Result Response * unit :=
  (match req with
   | GetEmailPreview _ => Ok (Stub.success one_variant "")
   | PostSendEmail body =>
       if match field "leadId" body with
          | Some (JNum q) => Qeq_bool q (inject_Z rejected)
          | _ => false
          end
       then Ok (Stub.success payload "")
       else Ok (Stub.success (JObj [("ok", JBool true)]) "")
   end, ()).

(** The same with the preview for lead [broken] failing with the
    answer the preview route gives when its retries are exhausted. *)
Definition fetch_failing_preview (broken : option Z) (req : ClientRequest) (_ : unit)
    : Result Response * unit :=
  (match req with
   | GetEmailPreview query =>
       if bool_decide (searchParams_get query "id" = string_of_Z <$> broken)
       then Ok {| resp_status := 500; resp_statusText := "Internal Server Error";
                  resp_text := Ok ("{" +:+ Stub.dq +:+ "error" +:+ Stub.dq +:+ ":"
                                   +:+ Stub.dq +:+ "failed to fetch from backend"
                                   +:+ Stub.dq +:+ "}");
                  resp_json := Ok (JObj [("error", JStr "failed to fetch from backend")]) |}
       else Ok (Stub.success one_variant "")
   | PostSendEmail body => Ok (Stub.success (JObj [("ok", JBool true)]) "")
   end, ()).

End Scenario.

Definition sample_query (variants : string) : list (string * string) :=
  [ ("id", "2"); ("tone", "Friendly"); ("variants", variants); ("creativity", "0.6") ].

(** ** Vocabulary of the properties *)

(** An attempt fails by a transport error or by a response whose status
    is not a success status. *)
Definition failed_attempt (r : Result Response) : bool :=
  match r with
  | Throw _ => true
  | Ok response => negb (resp_ok response)
  end.

(** The error the retry loop keeps for a failed attempt. *)
Definition attempt_error (r : Result Response) : Error :=
  match r with
  | Throw error => error
  | Ok response =>
      match resp_text response with
      | Ok errorBody => backend_error response errorBody
      | Throw error => error
      end
  end.

Definition is_attempt (ev : ServerEvent) : bool :=
  match ev with EvBackendFetch _ _ => true | EvSleep _ => false end.

Definition attempts (tr : list ServerEvent) : nat :=
  length (List.filter is_attempt tr).

Definition delays (tr : list ServerEvent) : nat :=
  length (List.filter (λ ev, negb (is_attempt ev)) tr).

(** A backend stub is deterministic when its answer to a request does not
    depend on its state. *)
Definition deterministic_backend {BState : Type}
    (backend : Endpoint → json → BState → Result Response * BState) : Prop :=
  ∀ ep body s s', (backend ep body s).1 = (backend ep body s').1.

(** The event is not a call, or is a call to [/send] whose body names the
    fixed recipient. *)
Definition to_test_address (ev : ServerEvent) : Prop :=
  match ev with
  | EvBackendFetch ep body =>
      ep = Send ∧
      get_prop (Some body) "recipient_email" = Ok (Some (JStr "test@example.com"))
  | EvSleep _ => True
  end.

(** The [recipient_email] fields of the bodies sent to [/send]. *)
Definition send_recipients (tr : list ServerEvent) : list value :=
  omap (λ ev, match ev with
              | EvBackendFetch Send body => Some (field "recipient_email" body)
              | _ => None
              end) tr.

(** The [variants] fields of the bodies sent to the backend. *)
Definition forwarded_variants (tr : list ServerEvent) : list (Result value) :=
  omap (λ ev, match ev with
              | EvBackendFetch _ body => Some (get_prop (Some body) "variants")
              | EvSleep _ => None
              end) tr.

(** The field as [JSON.stringify] writes [Math.min(n, 5)]: [null], or a
    number that is at most 5. *)
Definition at_most_5 (v : json) : Prop :=
  match v with
  | JNull => True
  | JNum q => (q <= 5)%Q
  | _ => False
  end.

(** The field as the interface description has it: an integer, at most 5. *)
Definition integer_at_most_5 (v : Result value) : Prop :=
  ∃ (q : Q) (z : Z), v = Ok (Some (JNum q)) ∧ (q == inject_Z z)%Q ∧ (z ≤ 5)%Z.

(** The same, within the range 1-5. *)
Definition integer_1_to_5 (v : Result value) : Prop :=
  ∃ (q : Q) (z : Z), v = Ok (Some (JNum q)) ∧ (q == inject_Z z)%Q ∧ (1 ≤ z ≤ 5)%Z.

(** The [response] variable of the retry loop after an attempt that did
    not pass. *)
Definition kept_response (response : option Response) (r : Result Response)
    : option Response :=
  match r with
  | Ok x => Some x
  | Throw _ => response
  end.

(** The world once the backend has answered an attempt. *)
Definition after_attempt {BState : Type} (ep : Endpoint) (body : json)
    (w : World BState) (s : BState) : World BState :=
  {| backend_state := s; trace := trace w ++ [EvBackendFetch ep body] |}.

(** Three attempts with a one-second sleep after the first and the
    second. *)
Definition two_retries (ep : Endpoint) (body : json) : list ServerEvent :=
  [ EvBackendFetch ep body; EvSleep 1000;
    EvBackendFetch ep body; EvSleep 1000;
    EvBackendFetch ep body ].

(** The status updates a run has recorded, in order. *)
Definition statuses (evs : list PageEvent) : list (Z * string) :=
  omap (λ ev, match ev with
              | EvSetStatus id status => Some (id, status)
              | _ => None
              end) evs.

(** The generation step fails for a lead when the preview call fails (a
    transport error, or the non-success answer the route gives once its
    retries are exhausted) or succeeds with zero variants. *)
Definition generation_failed (res : Result Response) : Prop :=
  match res with
  | Throw _ => True
  | Ok previewRes =>
      resp_ok previewRes = false ∨
      ∃ data, resp_json previewRes = Ok data ∧
              get_prop (Some data) "variants" = Ok (Some (JArr []))
  end.

(** The status an iteration records for the outcome of its [try] block. *)
Definition outcome_status (res : Result unit) : string :=
  match res with
  | Ok _ => "sent"
  | Throw _ => "failed"
  end.

(** A step of the handler that neither touches the page state nor records
    a status. *)
Definition quiet {W A : Type} (c : Eff (Run W) A) : Prop :=
  ∀ r, page (c r).2 = page r ∧ statuses (events (c r).2) = statuses (events r).

(** The payload signals failure, as the handler tests it: [ok] is
    [false], or [status] is truthy and is not ["success"]. *)
Definition signals_failure (sendData : json) : bool :=
  is_false (field "ok" sendData)
  || truthy (field "status" sendData) && negb (is_string "success" (field "status" sendData)).

(** The payload signals failure, as the specification words it: [ok] is
    [false], or [status] is present and is not ["success"]. *)
Definition signals_failure_as_stated (sendData : json) : bool :=
  is_false (field "ok" sendData)
  || match field "status" sendData with
     | Some status => negb (is_string "success" (Some status))
     | None => false
     end.

(** The send call counts as a success for the handler: it returned a
    success status and a JSON body other than [null] that does not signal
    failure. *)
Definition send_accepted (res : Result Response) : bool :=
  match res with
  | Ok sendRes =>
      resp_ok sendRes &&
      match resp_json sendRes with
      | Ok JNull => false
      | Ok sendData => negb (signals_failure sendData)
      | Throw _ => false
      end
  | Throw _ => false
  end.

(** The same as the specification words it: the call succeeded and the
    payload does not signal failure. *)
Definition send_accepted_as_stated (res : Result Response) : bool :=
  match res with
  | Ok sendRes =>
      resp_ok sendRes &&
      match resp_json sendRes with
      | Ok sendData => negb (signals_failure_as_stated sendData)
      | Throw _ => false
      end
  | Throw _ => false
  end.

(** The send calls of a run. *)
Definition send_calls (evs : list PageEvent) : list json :=
  omap (λ ev, match ev with
              | EvFetch (PostSendEmail body) => Some body
              | _ => None
              end) evs.

(** The recorded statuses that are not about lead [B]. *)
Definition about_others (B : Z) (l : list (Z * string)) : list (Z * string) :=
  List.filter (λ e, negb (e.1 =? B)%Z) l.

(** Two lead records at the same place in two runs: the same lead, and
    the same record unless it is lead [B]. *)
Definition unaffected (B : Z) (l1 l2 : Lead) : Prop :=
  lead_id l1 = lead_id l2 ∧ (lead_id l1 ≠ B → l1 = l2).

(** Two worlds answer alike for every lead but [B]: the preview call for
    such a lead, and the send call built for it from a given variant,
    get the same answer in both, whatever their states and clocks. *)
Definition same_answers_except {W1 W2 : Type} (B : Z) (tone creativity : string)
    (fetch1 : ClientRequest → W1 → Result Response * W1)
    (fetch2 : ClientRequest → W2 → Result Response * W2) : Prop :=
  (∀ lead w1 w2, lead_id lead ≠ B →
     (fetch1 (GetEmailPreview (preview_query tone creativity lead)) w1).1 =
     (fetch2 (GetEmailPreview (preview_query tone creativity lead)) w2).1) ∧
  (∀ lead variant t1 t2 body1 body2 w1 w2, lead_id lead ≠ B →
     send_request lead variant t1 = Ok body1 →
     send_request lead variant t2 = Ok body2 →
     (fetch1 (PostSendEmail body1) w1).1 = (fetch2 (PostSendEmail body2) w2).1).

(** ** The demo page: selection and the single-lead panel *)

(** [handleSelectLead(leadId)]: add the id to the selection, or remove it
    when it is there. *)
Definition handleSelectLead (leadId : Z) (p : Page) : Page :=
  setSelectedLeadIds
    (if bool_decide (leadId ∈ selectedLeadIds p)
     then selectedLeadIds p ∖ {[leadId]}
     else selectedLeadIds p ∪ {[leadId]}) p.

(** [handleSelectAll()] *)
Definition handleSelectAll (p : Page) : Page :=
  if (size (selectedLeadIds p) =? length (leads p))%nat
  then setSelectedLeadIds ∅ p
  else setSelectedLeadIds (list_to_set (lead_id <$> leads p)) p.

(** The [checked] attribute of the box in the table header. *)
Definition select_all_checked (p : Page) : bool :=
  (size (selectedLeadIds p) =? length (leads p))%nat && (0 <? length (leads p))%nat.

(** [v[i]] *)
Definition get_index (v : value) (i : nat) : Result value :=
  match v with
  | None | Some JNull => Throw TypeError
  | Some (JArr l) => Ok (l !! i)
  | Some (JStr s) =>
      Ok ((λ c, JStr (String c EmptyString)) <$> list_ascii_of_string s !! i)
  | Some (JObj fs) => Ok (lookup_field (string_of_Z (Z.of_nat i)) fs)
  | Some (JBool _) | Some (JNum _) => Ok None
  end.

(** The state of the panel opened by [Preview]. [preview] is [None] for
    [null]; [variantsCount], like [creativity], is held by its [String]
    rendering. *)
Record Panel : Type := {
  selectedLead : option Lead;
  preview : value;
  loadingPreview : bool;
  sending : bool;
  selectedVariantIndex : nat;
  variantsCount : string
}.

Section SingleLead.

Context {W : Type}.
Variable fetch : ClientRequest → W → Result Response * W.
Variable now : W → string.

Record Session : Type := {
  panel : Panel;
  inner : Run W
}.

(** The [try] block of [handlePreview]. *)
Definition fetch_preview (lead : Lead) (p : Page) (count : string) : Eff (Run W) json :=
  res <- page_fetch fetch
           (GetEmailPreview
              [ ("id", string_of_Z (lead_id lead));
                ("tone", tone p);
                ("variants", count);
                ("creativity", creativity p) ]) ;;
  _ <- lift (if resp_ok res then Ok () else Throw (Err "Preview error")) ;;
  lift (resp_json res).

Definition handlePreview (lead : Lead) (s : Session) : Session :=
  let count := variantsCount (panel s) in
  match fetch_preview lead (page (inner s)) count (inner s) with
  | (Ok data, r) =>
      {| panel := {| selectedLead := Some lead; preview := Some data;
                     loadingPreview := false; sending := sending (panel s);
                     selectedVariantIndex := 0; variantsCount := count |};
         inner := r |}
  | (Throw e, r) =>
      {| panel := {| selectedLead := Some lead; preview := None;
                     loadingPreview := false; sending := sending (panel s);
                     selectedVariantIndex := 0; variantsCount := count |};
         inner := on_page (showToast "Failed to fetch preview") r |}
  end.

Definition handleRegenerate (s : Session) : Session :=
  match selectedLead (panel s) with
  | None => s
  | Some lead => handlePreview lead s
  end.

Definition single_send_request (lead : Lead) (variant : value) (captured_at : string)
    : Result json :=
  variantId ← get_prop variant "id";
  subject ← get_prop variant "subject";
  body ← get_prop variant "body";
  Ok (JSON_object
        [ ("leadId", Some (JNum (inject_Z (lead_id lead))));
          ("variantId", variantId);
          ("subject", subject);
          ("body", body);
          ("consent_snapshot",
            Some (JObj [ ("source", JStr "demo");
                         ("captured_at", JStr captured_at);
                         ("exact_text", JStr "User opted in via demo form") ])) ]).

(** [!res.ok || !data.ok] *)
Definition single_send_rejected (res : Response) (data : json) : Result bool :=
  if negb (resp_ok res) then Ok true
  else ok ← get_prop (Some data) "ok"; Ok (negb (truthy ok)).

(** The [try] block of [handleSend], up to the check of the answer. *)
Definition try_send (lead : Lead) (pv : value) (index : nat) : Eff (Run W) unit :=
  variant <- lift (variants ← get_prop pv "variants"; get_index variants index) ;;
  body <- (λ r, (single_send_request lead variant (now (world r)), r)) ;;
  res <- page_fetch fetch (PostSendEmail body) ;;
  data <- lift (resp_json res) ;;
  rejected <- lift (single_send_rejected res data) ;;
  lift (if rejected : bool then Throw (Err "Send failed") else Ok ()).

Definition handleSend (s : Session) : Session :=
  match selectedLead (panel s) with
  | None => s
  | Some lead =>
      if negb (truthy (preview (panel s))) then s
      else
        match try_send lead (preview (panel s)) (selectedVariantIndex (panel s)) (inner s) with
        | (Ok _, r) =>
            {| panel := {| selectedLead := None; preview := None;
                           loadingPreview := loadingPreview (panel s);
                           sending := false;
                           selectedVariantIndex := selectedVariantIndex (panel s);
                           variantsCount := variantsCount (panel s) |};
               inner := set_status (lead_id lead) "sent"
                          (on_page (showToast ("Email sent to " +:+ first_name lead)) r) |}
        | (Throw e, r) =>
            {| panel := {| selectedLead := selectedLead (panel s);
                           preview := preview (panel s);
                           loadingPreview := loadingPreview (panel s);
                           sending := false;
                           selectedVariantIndex := selectedVariantIndex (panel s);
                           variantsCount := variantsCount (panel s) |};
               inner := on_page (showToast "Failed to send email") r |}
        end
  end.

End SingleLead.

Arguments Session : clear implicits.

(** ** The helpers of the page *)

(** The characters of the class in [escapeRegExp]. *)
Definition is_syntax_char (c : ascii) : bool :=
  existsb (Ascii.eqb c) (list_ascii_of_string ".*+?^${}()|[]\").

(** [s.replace(/[.*+?^${}()|[\]\\]/g, "\\$&")]: each character of the
    class is replaced by a backslash and itself. *)
Fixpoint escapeRegExp (s : string) : string :=
  match s with
  | EmptyString => EmptyString
  | String c s' =>
      if is_syntax_char c
      then String "\" (String c (escapeRegExp s'))
      else String c (escapeRegExp s')
  end.

(** The equality of [Set]: values of JSON primitives are compared; two
    parsed arrays or objects are never the same one. *)
Definition same_value_zero (a b : json) : bool :=
  match a, b with
  | JNull, JNull => true
  | JBool x, JBool y => Bool.eqb x y
  | JNum x, JNum y => Qeq_bool x y
  | JStr x, JStr y => String.eqb x y
  | _, _ => false
  end.

(** [set.add(t)], the set held as the list of its members in the order
    they were inserted. *)
Definition set_add (set : list json) (t : json) : list json :=
  if existsb (same_value_zero t) set then set else set ++ [t].

(** [(v.used_tokens || []).forEach((t) => set.add(t))]: only an array has
    [forEach]. *)
Definition add_used_tokens (set : list json) (v : json) : Result (list json) :=
  used ← get_prop (Some v) "used_tokens";
  if truthy used
  then match used with
       | Some (JArr tokens) => Ok (foldl set_add set tokens)
       | _ => Throw TypeError
       end
  else Ok set.

Fixpoint add_all_used_tokens (set : list json) (variants : list json)
    : Result (list json) :=
  match variants with
  | [] => Ok set
  | v :: variants' =>
      set' ← add_used_tokens set v;
      add_all_used_tokens set' variants'
  end.

(** [unionUsedTokens(variants)], for [variants] an array. *)
Definition unionUsedTokens (variants : list json) : Result (list json) :=
  add_all_used_tokens [] variants.

(** The preview calls and the delays of a run. *)
Definition preview_calls (evs : list PageEvent) : list (list (string * string)) :=
  omap (λ ev, match ev with
              | EvFetch (GetEmailPreview query) => Some query
              | _ => None
              end) evs.

Definition waits (evs : list PageEvent) : list Z :=
  omap (λ ev, match ev with EvWait ms => Some ms | _ => None end) evs.

(** A lead whose status is one of the two a send leaves. *)
Definition settled (l : Lead) : Prop :=
  lead_status l = Some "sent" ∨ lead_status l = Some "failed".

(** How many of the recorded statuses are [status]. *)
Definition recorded (status : string) (l : list (Z * string)) : nat :=
  length (List.filter (λ e, String.eqb e.2 status) l).

(** The world after the page has made the calls [reqs] one after the
    other. *)
Fixpoint world_after {W : Type} (fetch : ClientRequest → W → Result Response * W)
    (reqs : list ClientRequest) (w : W) : W :=
  match reqs with
  | [] => w
  | req :: reqs' => world_after fetch reqs' (fetch req w).2
  end.

(** The answers the backend gives to the same request asked again and
    again, up to the first one that passes and at most [n] of them, and
    its state after the last. *)
Fixpoint attempts_until_pass {BState : Type}
    (backend : Endpoint → json → BState → Result Response * BState)
    (n : nat) (ep : Endpoint) (body : json) (s : BState)
    : list (Result Response) * BState :=
  match n with
  | O => ([], s)
  | S n' =>
      let '(r, s') := backend ep body s in
      if failed_attempt r
      then let '(rs, s'') := attempts_until_pass backend n' ep body s' in (r :: rs, s'')
      else ([r], s')
  end.

(** The trace of a forwarder that got the answers [rs]: an attempt for
    each, and a one-second sleep after each that failed. *)
Definition events_of (ep : Endpoint) (body : json) (rs : list (Result Response))
    : list ServerEvent :=
  r ← rs; if failed_attempt r then [EvBackendFetch ep body; EvSleep 1000]
          else [EvBackendFetch ep body].

(** What the forwarder returns when [r] is the last answer it got. *)
Definition outcome_of_last (r : Result Response) : Result json :=
  if failed_attempt r then Throw (attempt_error r)
  else match r with
       | Ok x => resp_json x
       | Throw e => Throw e
       end.

Definition not_ok (response : option Response) : Prop :=
  match response with Some x => resp_ok x = false | None => True end.

Definition is_null (v : json) : bool :=
  match v with JNull => true | _ => false end.

(** The events a run of a route added to the trace of [w]. *)
Definition issued_since {BState : Type} (w w' : World BState) : list ServerEvent :=
  drop (length (trace w)) (trace w').

(** What [handlePreview] stores for the answer to its call: the parsed
    body of a success answer, [null] otherwise. *)
Definition preview_loaded (res : Result Response) : value :=
  match res with
  | Ok x =>
      if resp_ok x
      then match resp_json x with Ok data => Some data | Throw _ => None end
      else None
  | Throw _ => None
  end.

(** The send call counts as a success for [handleSend]: a success
    status and a JSON body, not [null], whose [ok] is truthy. *)
Definition single_send_accepted (res : Result Response) : bool :=
  match res with
  | Ok x =>
      resp_ok x &&
      match resp_json x with
      | Ok JNull => false
      | Ok data => truthy (field "ok" data)
      | Throw _ => false
      end
  | Throw _ => false
  end.

(** The string a pattern matches when it is made of literal atoms only:
    a character outside the syntax characters stands for itself, a
    backslash followed by a syntax character stands for that character;
    any other use of a syntax character is not a literal atom. *)
Fixpoint literal_of_pattern (p : string) : option string :=
  match p with
  | EmptyString => Some EmptyString
  | String c p' =>
      if is_syntax_char c
      then if Ascii.eqb c "\"
           then match p' with
                | String d p'' =>
                    if is_syntax_char d
                    then String d <$> literal_of_pattern p''
                    else None
                | EmptyString => None
                end
           else None
      else String c <$> literal_of_pattern p'
  end.

(** How many characters of [s] are syntax characters. *)
Fixpoint syntax_chars (s : string) : nat :=
  match s with
  | EmptyString => 0
  | String c s' => (if is_syntax_char c then 1 else 0) + syntax_chars s'
  end.

(** A variant whose [used_tokens] are the strings [ts]; a variant with
    no [used_tokens], or a falsy one, has none. *)
Definition has_tokens (v : json) (ts : list string) : Prop :=
  v ≠ JNull ∧
  (field "used_tokens" v = Some (JArr (JStr <$> ts)) ∨
   truthy (field "used_tokens" v) = false ∧ ts = []).

(** A variant [unionUsedTokens] cannot read: [null], or one whose
    [used_tokens] is truthy and is not an array. *)
Definition unreadable_variant (v : json) : Prop :=
  v = JNull ∨
  truthy (field "used_tokens" v) = true ∧ ∀ l, field "used_tokens" v ≠ Some (JArr l).

(** Test doubles for the panel and the helpers. *)
Module Fixtures.

Definition closed : Panel :=
  {| selectedLead := None; preview := None; loadingPreview := false;
     sending := false; selectedVariantIndex := 0; variantsCount := "3" |}.

Definition session (p : Page) : Session unit :=
  {| panel := closed; inner := Scenario.start p |}.

(** The panel once a preview of [lead] has loaded. *)
Definition previewed (lead : Lead) (p : Page) : Session unit :=
  {| panel := {| selectedLead := Some lead; preview := Some Scenario.one_variant;
                 loadingPreview := false; sending := false;
                 selectedVariantIndex := 0; variantsCount := "3" |};
     inner := Scenario.start p |}.

(** A 200 response whose body is not JSON. *)
Definition garbled : Response :=
  {| resp_status := 200; resp_statusText := "OK";
     resp_text := Ok "<html></html>";
     resp_json := Throw (Err "Unexpected token < in JSON at position 0") |}.

Definition always_garbled (ep : Endpoint) (body : json) (calls : nat)
    : Result Response * nat :=
  (Ok garbled, S calls).

Definition send_request : json :=
  JObj [ ("leadId", JNum 1); ("subject", JStr "Hi"); ("body", JStr "B") ].

Definition sarah_generate_body : json :=
  generate_body "2" "Friendly" (StringToNumber.Number "3") (StringToNumber.Number "0.6").

End Fixtures.

(** * Properties of the routes *)

Section RoutesFacts.

Context {BState : Type}.
Variable backend : Endpoint → json → BState → Result Response * BState.
Variable Number : string → number.
Variable toLowerCase : string → string.

#[local] Abbreviation World := (World BState).

Lemma retry_loop_failed n ep body response lastError (w : World) r s :
  backend ep body (backend_state w) = (r, s) →
  failed_attempt r = true →
  retry_loop backend (S n) ep body response lastError w =
  retry_loop backend n ep body (kept_response response r) (Some (attempt_error r))
    (sleep 1000 (after_attempt ep body w s)).
Proof.
  intros Hcall Hfail. cbn [retry_loop]. unfold backend_fetch. rewrite Hcall.
  destruct r as [x|e]; cbn in *.
  - apply negb_true_iff in Hfail. rewrite Hfail. reflexivity.
  - reflexivity.
Qed.

Lemma retry_loop_passed n ep body response lastError (w : World) x s :
  backend ep body (backend_state w) = (Ok x, s) →
  resp_ok x = true →
  retry_loop backend (S n) ep body response lastError w =
  (Some x, None, after_attempt ep body w s).
Proof.
  intros Hcall Hok. cbn [retry_loop]. unfold backend_fetch.
  rewrite Hcall, Hok. reflexivity.
Qed.

Lemma kept_response_not_ok response r :
  failed_attempt r = true →
  match response with Some x => resp_ok x = false | None => True end →
  match kept_response response r with Some x => resp_ok x = false | None => True end.
Proof.
  destruct r as [x|e]; cbn; intros Hfail Hprev; [|assumption].
  by apply negb_true_iff.
Qed.

(** Whatever the backend does, the loop only adds attempts on its own
    request and one-second sleeps to the trace. *)
Lemma retry_loop_trace n ep body response lastError (w : World) :
  ∃ issued,
    trace (retry_loop backend n ep body response lastError w).2 = trace w ++ issued ∧
    Forall (λ ev, ev = EvBackendFetch ep body ∨ ev = EvSleep 1000) issued ∧
    attempts issued ≤ n.
Proof.
  revert response lastError w.
  induction n as [|n IH]; intros response lastError w.
  - exists []. cbn. rewrite app_nil_r. split; [reflexivity|]. split; [constructor|].
    unfold attempts. cbn. lia.
  - cbn [retry_loop]. unfold backend_fetch.
    destruct (backend ep body (backend_state w)) as [r s] eqn:Hcall.
    assert (Hmore : ∀ a b,
      ∃ issued,
        trace (retry_loop backend n ep body a b
                 (sleep 1000 (after_attempt ep body w s))).2 = trace w ++ issued ∧
        Forall (λ ev, ev = EvBackendFetch ep body ∨ ev = EvSleep 1000) issued ∧
        attempts issued ≤ S n).
    { intros a b.
      destruct (IH a b (sleep 1000 (after_attempt ep body w s)))
        as (issued & Htr & Hall & Hn).
      exists (EvBackendFetch ep body :: EvSleep 1000 :: issued).
      rewrite Htr. cbn. rewrite <- !app_assoc. split; [reflexivity|].
      split; [constructor; [by left|]; constructor; [by right|]; assumption|].
      unfold attempts in *. cbn. lia. }
    destruct r as [x|e]; [destruct (resp_ok x)|].
    + exists [EvBackendFetch ep body]. cbn. split; [reflexivity|].
      split; [constructor; [by left|constructor]|]. unfold attempts. cbn. lia.
    + apply Hmore.
    + apply Hmore.
Qed.

Lemma bind_lift_fst {St A B} (c : Eff St A) (f : A → Result B) (s : St) :
  (bind c (λ a, lift (f a)) s).1 =
  match (c s).1 with Ok a => f a | Throw e => Throw e end.
Proof. unfold bind, lift. by destruct (c s) as [[a|e] s']. Qed.

Lemma bind_lift_snd {St A B} (c : Eff St A) (f : A → Result B) (s : St) :
  (bind c (λ a, lift (f a)) s).2 = (c s).2.
Proof. unfold bind, lift. by destruct (c s) as [[a|e] s']. Qed.

Lemma forward_with_retry_world ep body (w : World) :
  (forward_with_retry backend ep body w).2 =
  (retry_loop backend 3 ep body None None w).2.
Proof.
  unfold forward_with_retry.
  destruct (retry_loop backend 3 ep body None None w) as [[response lastError] w'].
  by destruct response as [x|]; [destruct (resp_ok x)|].
Qed.

Lemma forward_json_trace ep body (w : World) :
  ∃ issued,
    trace (forward_json backend ep body w).2 = trace w ++ issued ∧
    Forall (λ ev, ev = EvBackendFetch ep body ∨ ev = EvSleep 1000) issued ∧
    attempts issued ≤ 3.
Proof.
  unfold forward_json. rewrite bind_lift_snd, forward_with_retry_world.
  apply retry_loop_trace.
Qed.

Lemma forward_json_third_attempt ep body (w : World) r1 s1 r2 s2 x s3 payload :
  backend ep body (backend_state w) = (r1, s1) → failed_attempt r1 = true →
  backend ep body s1 = (r2, s2) → failed_attempt r2 = true →
  backend ep body s2 = (Ok x, s3) → resp_ok x = true →
  resp_json x = Ok payload →
  forward_json backend ep body w =
    (Ok payload, {| backend_state := s3; trace := trace w ++ two_retries ep body |}).
Proof.
  intros H1 F1 H2 F2 H3 Hok Hjson.
  unfold forward_json, bind, forward_with_retry.
  rewrite (retry_loop_failed 2 ep body None None w r1 s1 H1 F1).
  rewrite (retry_loop_failed 1 ep body _ _
             (sleep 1000 (after_attempt ep body w s1)) r2 s2 H2 F2).
  rewrite (retry_loop_passed 0 ep body _ _
             (sleep 1000 (after_attempt ep body
                            (sleep 1000 (after_attempt ep body w s1)) s2))
             x s3 H3 Hok).
  rewrite Hok. unfold lift. rewrite Hjson.
  unfold after_attempt, sleep, two_retries. cbn. by rewrite <- !app_assoc.
Qed.

Lemma forward_json_three_failures ep body (w : World) r1 s1 r2 s2 r3 s3 :
  backend ep body (backend_state w) = (r1, s1) → failed_attempt r1 = true →
  backend ep body s1 = (r2, s2) → failed_attempt r2 = true →
  backend ep body s2 = (r3, s3) → failed_attempt r3 = true →
  forward_json backend ep body w =
    (Throw (attempt_error r3),
     {| backend_state := s3;
        trace := trace w ++ two_retries ep body ++ [EvSleep 1000] |}).
Proof.
  intros H1 F1 H2 F2 H3 F3.
  unfold forward_json, bind, forward_with_retry.
  rewrite (retry_loop_failed 2 ep body None None w r1 s1 H1 F1).
  rewrite (retry_loop_failed 1 ep body _ _
             (sleep 1000 (after_attempt ep body w s1)) r2 s2 H2 F2).
  rewrite (retry_loop_failed 0 ep body _ _
             (sleep 1000 (after_attempt ep body
                            (sleep 1000 (after_attempt ep body w s1)) s2))
             r3 s3 H3 F3).
  cbn [retry_loop].
  pose proof (kept_response_not_ok _ r3 F3
                (kept_response_not_ok _ r2 F2
                   (kept_response_not_ok None r1 F1 I))) as Hkept.
  destruct (kept_response _ r3) as [y|]; [rewrite Hkept|];
    unfold after_attempt, sleep, two_retries; cbn; by rewrite <- !app_assoc.
Qed.

(** C2. When the backend fails the first two attempts (transport error
    or non-success status) and answers the third with a success status
    and a parseable payload, the forwarder returns that payload, having
    made exactly three attempts with a one-second delay after each of
    the first two, and the successful attempt is the last thing it
    does. *)
Theorem forwarder_third_attempt_succeeds ep body (w : World) r1 s1 r2 s2 x s3 payload :
  backend ep body (backend_state w) = (r1, s1) → failed_attempt r1 = true →
  backend ep body s1 = (r2, s2) → failed_attempt r2 = true →
  backend ep body s2 = (Ok x, s3) → resp_ok x = true →
  resp_json x = Ok payload →
  ∃ issued,
    forward_json backend ep body w =
      (Ok payload, {| backend_state := s3; trace := trace w ++ issued |}) ∧
    issued = [ EvBackendFetch ep body; EvSleep 1000;
               EvBackendFetch ep body; EvSleep 1000;
               EvBackendFetch ep body ] ∧
    attempts issued = 3 ∧ delays issued = 2.
Proof.
  intros H1 F1 H2 F2 H3 Hok Hjson. exists (two_retries ep body).
  split; [by eapply forward_json_third_attempt|]. by repeat split.
Qed.

(** C3. When the backend fails all three attempts the forwarder makes
    exactly three attempts, waits one second after each of them (so at
    least two delays separate the attempts), and throws the error of the
    third attempt. *)
Theorem forwarder_three_failures ep body (w : World) r1 s1 r2 s2 r3 s3 :
  backend ep body (backend_state w) = (r1, s1) → failed_attempt r1 = true →
  backend ep body s1 = (r2, s2) → failed_attempt r2 = true →
  backend ep body s2 = (r3, s3) → failed_attempt r3 = true →
  ∃ issued,
    forward_json backend ep body w =
      (Throw (attempt_error r3),
       {| backend_state := s3; trace := trace w ++ issued |}) ∧
    issued = [ EvBackendFetch ep body; EvSleep 1000;
               EvBackendFetch ep body; EvSleep 1000;
               EvBackendFetch ep body; EvSleep 1000 ] ∧
    attempts issued = 3 ∧ 2 ≤ delays issued.
Proof.
  intros H1 F1 H2 F2 H3 F3. exists (two_retries ep body ++ [EvSleep 1000]).
  split; [by eapply forward_json_three_failures|].
  split; [reflexivity|]. split; [reflexivity|]. unfold delays. cbn. lia.
Qed.

(** The same two outcomes as the send route returns them. *)
Lemma POST_third_attempt_succeeds data body (w : World) r1 s1 r2 s2 x s3 payload :
  send_body data = Ok body →
  backend Send body (backend_state w) = (r1, s1) → failed_attempt r1 = true →
  backend Send body s1 = (r2, s2) → failed_attempt r2 = true →
  backend Send body s2 = (Ok x, s3) → resp_ok x = true →
  resp_json x = Ok payload →
  (POST backend (Ok data) w).1 = {| nr_status := 200; nr_body := payload |}.
Proof.
  intros Hbody H1 F1 H2 F2 H3 Hok Hjson.
  unfold POST, bind, lift. rewrite Hbody.
  by rewrite (forward_json_third_attempt Send body w _ _ _ _ _ _ _
                H1 F1 H2 F2 H3 Hok Hjson).
Qed.

Lemma POST_three_failures data body (w : World) r1 s1 r2 s2 r3 s3 :
  send_body data = Ok body →
  backend Send body (backend_state w) = (r1, s1) → failed_attempt r1 = true →
  backend Send body s1 = (r2, s2) → failed_attempt r2 = true →
  backend Send body s2 = (r3, s3) → failed_attempt r3 = true →
  (POST backend (Ok data) w).1 =
    {| nr_status := 500;
       nr_body := JObj [ ("ok", JBool false);
                         ("error", JStr "Failed to send email via backend");
                         ("details", JStr (message (attempt_error r3))) ] |}.
Proof.
  intros Hbody H1 F1 H2 F2 H3 F3.
  unfold POST, bind, lift. rewrite Hbody.
  by rewrite (forward_json_three_failures Send body w _ _ _ _ _ _
                H1 F1 H2 F2 H3 F3).
Qed.

Lemma GET_three_failures query (w : World) body r1 s1 r2 s2 r3 s3 :
  body = generate_body
           (default "1" (searchParams_get query "id"))
           (default "Friendly" (searchParams_get query "tone"))
           (Number (default "3" (searchParams_get query "variants")))
           (Number (default "0.6" (searchParams_get query "creativity"))) →
  backend Generate body (backend_state w) = (r1, s1) → failed_attempt r1 = true →
  backend Generate body s1 = (r2, s2) → failed_attempt r2 = true →
  backend Generate body s2 = (r3, s3) → failed_attempt r3 = true →
  (GET backend Number toLowerCase query w).1 =
    {| nr_status := 500;
       nr_body := JObj [ ("error", JStr "failed to fetch from backend");
                         ("details", JStr (message (attempt_error r3))) ] |}.
Proof.
  intros -> H1 F1 H2 F2 H3 F3.
  unfold GET, bind, lift.
  by rewrite (forward_json_three_failures Generate _ w _ _ _ _ _ _
                H1 F1 H2 F2 H3 F3).
Qed.

(** *** Determinism of the preview route *)

Lemma retry_loop_deterministic :
  deterministic_backend backend →
  ∀ n ep body response lastError (w w' : World),
    (retry_loop backend n ep body response lastError w).1 =
    (retry_loop backend n ep body response lastError w').1.
Proof.
  intros Hdet n ep body.
  induction n as [|n IH]; intros response lastError w w'; [reflexivity|].
  cbn [retry_loop]. unfold backend_fetch.
  pose proof (Hdet ep body (backend_state w) (backend_state w')) as Hsame.
  destruct (backend ep body (backend_state w)) as [r s].
  destruct (backend ep body (backend_state w')) as [r' s'].
  cbn in Hsame. subst r'.
  destruct r as [x|e]; [destruct (resp_ok x)|]; [reflexivity | apply IH | apply IH].
Qed.

Lemma forward_json_deterministic :
  deterministic_backend backend →
  ∀ ep body (w w' : World),
    (forward_json backend ep body w).1 = (forward_json backend ep body w').1.
Proof.
  intros Hdet ep body w w'. unfold forward_json. rewrite !bind_lift_fst.
  unfold forward_with_retry.
  pose proof (retry_loop_deterministic Hdet 3 ep body None None w w') as Hsame.
  destruct (retry_loop backend 3 ep body None None w) as [[response lastError] w1].
  destruct (retry_loop backend 3 ep body None None w') as [[response' lastError'] w1'].
  cbn in Hsame. injection Hsame as -> ->.
  by destruct response' as [x|]; [destruct (resp_ok x)|].
Qed.

(** C9. Against a backend stub whose answers depend on the request
    only, two runs of the preview route on the same query return the
    same response (status and body, hence the same variants, rationale,
    subject suggestions and model), whatever the state of the stub and
    the history of calls at the start of each run. *)
Theorem preview_deterministic :
  deterministic_backend backend →
  ∀ query (w w' : World),
    (GET backend Number toLowerCase query w).1 =
    (GET backend Number toLowerCase query w').1.
Proof.
  intros Hdet query w w'. unfold GET.
  set (c := forward_json backend Generate _).
  set (f := format_preview _ _ _).
  assert (Heq : (bind c (λ data, lift (f data)) w).1 =
                (bind c (λ data, lift (f data)) w').1).
  { rewrite !bind_lift_fst. unfold c.
    by rewrite (forward_json_deterministic Hdet _ _ w w'). }
  destruct (bind c _ w) as [[body|err] w1], (bind c _ w') as [[body'|err'] w1'];
    cbn in Heq; by simplify_eq.
Qed.

(** *** What the routes forward *)

Lemma send_body_recipient data body :
  send_body data = Ok body →
  get_prop (Some body) "recipient_email" = Ok (Some (JStr "test@example.com")).
Proof.
  unfold send_body. intros H.
  destruct (get_prop (Some data) "subject") as [subject|]; [|done].
  destruct (get_prop (Some data) "body") as [body'|]; [|done].
  destruct (get_prop (Some data) "consent_snapshot") as [consent|]; [|done].
  cbn in H. by simplify_eq.
Qed.

Lemma POST_world request (w : World) :
  (POST backend request w).2 =
  match request with
  | Ok data =>
      match send_body data with
      | Ok body => (forward_json backend Send body w).2
      | Throw _ => w
      end
  | Throw _ => w
  end.
Proof.
  unfold POST, bind, lift.
  destruct request as [data|e]; [|done].
  destruct (send_body data) as [body|e]; [|done].
  by destruct (forward_json backend Send body w) as [[payload|e] w'].
Qed.

Lemma GET_world query (w : World) :
  (GET backend Number toLowerCase query w).2 =
  (forward_json backend Generate
     (generate_body
        (default "1" (searchParams_get query "id"))
        (default "Friendly" (searchParams_get query "tone"))
        (Number (default "3" (searchParams_get query "variants")))
        (Number (default "0.6" (searchParams_get query "creativity")))) w).2.
Proof.
  unfold GET.
  set (c := forward_json backend Generate _).
  set (f := format_preview _ _ _).
  rewrite <- (bind_lift_snd c f w).
  by destruct (bind c _ w) as [[body|err] w1].
Qed.

Lemma Math_min_at_most_5 n : at_most_5 (JSON_number (Math_min n (Finite 5))).
Proof.
  destruct n as [| | |q]; cbn; try done.
  destruct (Qle_bool q 5) eqn:Hle; cbn; [by apply Qle_bool_iff | apply Qle_refl].
Qed.

(** C7. Every call the send route makes goes to [/send] with
    [recipient_email] equal to ["test@example.com"], whatever the
    request carries (lead id, addresses, anything else); a request from
    which no body can be built makes no call. *)
Theorem send_route_fixed_recipient request (w : World) :
  ∃ issued,
    trace (POST backend request w).2 = trace w ++ issued ∧
    Forall to_test_address issued.
Proof.
  rewrite POST_world.
  destruct request as [data|e]; [|exists []; by rewrite app_nil_r].
  destruct (send_body data) as [body|e] eqn:Hbody; [|exists []; by rewrite app_nil_r].
  destruct (forward_json_trace Send body w) as (issued & Htr & Hall & _).
  exists issued. split; [done|].
  eapply Forall_impl; [exact Hall|].
  intros ev [-> | ->]; cbn; [|done].
  split; [done|]. exact (send_body_recipient data body Hbody).
Qed.

(** C8, as the route has it. Every call the preview route makes goes to
    [/generate] with [variants] equal to [Math.min(Number(v), 5)] for
    [v] the [variants] parameter (["3"] when absent): a number that is
    at most 5, or [null] when that is not a finite number. The route
    sets no lower bound and does not round. *)
Theorem preview_variants_capped query (w : World) :
  let requested := Number (default "3" (searchParams_get query "variants")) in
  let forwarded := JSON_number (Math_min requested (Finite 5)) in
  at_most_5 forwarded ∧
  ∃ issued,
    trace (GET backend Number toLowerCase query w).2 = trace w ++ issued ∧
    Forall (λ ev, match ev with
                  | EvBackendFetch ep body =>
                      ep = Generate ∧
                      get_prop (Some body) "variants" = Ok (Some forwarded)
                  | EvSleep _ => True
                  end) issued.
Proof.
  intros requested forwarded. split; [apply Math_min_at_most_5|].
  rewrite GET_world.
  match goal with
  | |- context [forward_json backend Generate ?b w] =>
      destruct (forward_json_trace Generate b w) as (issued & Htr & Hall & _)
  end.
  exists issued. split; [done|].
  eapply Forall_impl; [exact Hall|].
  by intros ev [-> | ->].
Qed.

End RoutesFacts.

Section DeploymentFacts.

Context {BState : Type}.
Variable backend : Endpoint → json → BState → Result Response * BState.
Variable Number : string → number.
Variable toLowerCase : string → string.
Variable JSON_stringify : json → string.

(** When the backend fails the three attempts of the preview route, the
    page sees the generation step fail. *)
Lemma exhausted_retries_fail_generation query (w : World BState) body r1 s1 r2 s2 r3 s3 :
  body = generate_body
           (default "1" (searchParams_get query "id"))
           (default "Friendly" (searchParams_get query "tone"))
           (Number (default "3" (searchParams_get query "variants")))
           (Number (default "0.6" (searchParams_get query "creativity"))) →
  backend Generate body (backend_state w) = (r1, s1) → failed_attempt r1 = true →
  backend Generate body s1 = (r2, s2) → failed_attempt r2 = true →
  backend Generate body s2 = (r3, s3) → failed_attempt r3 = true →
  generation_failed
    (route_fetch backend Number toLowerCase JSON_stringify (GetEmailPreview query) w).1.
Proof.
  intros Hbody H1 F1 H2 F2 H3 F3. unfold route_fetch.
  pose proof (GET_three_failures backend Number toLowerCase query w body
                r1 s1 r2 s2 r3 s3 Hbody H1 F1 H2 F2 H3 F3) as Hget.
  destruct (GET backend Number toLowerCase query w) as [nr w'].
  cbn in Hget. subst nr. by left.
Qed.

End DeploymentFacts.

(** *** The routes on the stubs *)

Lemma forwarder_third_attempt_succeeds_witness :
  ∃ issued,
    forward_json (Stub.flaky 2) Send (JObj []) Stub.start =
      (Ok (JObj [("status", JStr "success")]),
       {| backend_state := 3; trace := trace Stub.start ++ issued |}) ∧
    issued = [ EvBackendFetch Send (JObj []); EvSleep 1000;
               EvBackendFetch Send (JObj []); EvSleep 1000;
               EvBackendFetch Send (JObj []) ] ∧
    attempts issued = 3 ∧ delays issued = 2.
Proof.
  apply (forwarder_third_attempt_succeeds (Stub.flaky 2) Send (JObj []) Stub.start
           (Throw Stub.refused) 1 (Ok Stub.unavailable) 2 Stub.delivered 3);
    reflexivity.
Defined.

Lemma forwarder_three_failures_witness :
  ∃ issued,
    forward_json (Stub.flaky 3) Generate (JObj []) Stub.start =
      (Throw (Err "Backend API error: 503 Service Unavailable - upstream down"),
       {| backend_state := 3; trace := trace Stub.start ++ issued |}) ∧
    issued = [ EvBackendFetch Generate (JObj []); EvSleep 1000;
               EvBackendFetch Generate (JObj []); EvSleep 1000;
               EvBackendFetch Generate (JObj []); EvSleep 1000 ] ∧
    attempts issued = 3 ∧ 2 ≤ delays issued.
Proof.
  apply (forwarder_three_failures (Stub.flaky 3) Generate (JObj []) Stub.start
           (Throw Stub.refused) 1 (Ok Stub.unavailable) 2 (Ok Stub.unavailable) 3);
    reflexivity.
Defined.

Lemma preview_deterministic_witness :
  (GET (Stub.flaky 0) StringToNumber.Number toLowerCase_ascii (sample_query "3")
     Stub.start).1 =
  (GET (Stub.flaky 0) StringToNumber.Number toLowerCase_ascii (sample_query "3")
     {| backend_state := 7; trace := [EvSleep 1000] |}).1.
Proof.
  apply (preview_deterministic (Stub.flaky 0) StringToNumber.Number toLowerCase_ascii).
  intros ep body s s'. reflexivity.
Defined.

(** C8 as stated fails: a [variants] parameter of ["2.5"] is forwarded as
    2.5, which is not an integer, and one of ["0"] is forwarded as 0,
    which is below the range 1-5. *)
Lemma preview_variants_not_integer_in_range :
  forwarded_variants
    (trace (GET (Stub.flaky 0) StringToNumber.Number toLowerCase_ascii
              (sample_query "2.5") Stub.start).2) = [Ok (Some (JNum 2.5))] ∧
  ¬ integer_at_most_5 (Ok (Some (JNum 2.5))) ∧
  forwarded_variants
    (trace (GET (Stub.flaky 0) StringToNumber.Number toLowerCase_ascii
              (sample_query "0") Stub.start).2) = [Ok (Some (JNum 0))] ∧
  ¬ integer_1_to_5 (Ok (Some (JNum 0))).
Proof.
  split; [by vm_compute|]. split.
  { intros (q & z & Heq & Hq & _). simplify_eq. unfold Qeq in Hq. cbn in Hq. lia. }
  split; [by vm_compute|].
  intros (q & z & Heq & Hq & Hz). simplify_eq. unfold Qeq in Hq. cbn in Hq. lia.
Qed.

(** The send route on two requests that differ in the lead only. *)
Example send_route_ignores_lead :
  trace (POST (Stub.flaky 0)
           (Ok (JObj [("leadId", JNum 1); ("subject", JStr "Hi"); ("body", JStr "B")]))
           Stub.start).2 =
  trace (POST (Stub.flaky 0)
           (Ok (JObj [("leadId", JNum 2); ("subject", JStr "Hi"); ("body", JStr "B")]))
           Stub.start).2 ∧
  trace (POST (Stub.flaky 0)
           (Ok (JObj [("leadId", JNum 2); ("subject", JStr "Hi"); ("body", JStr "B")]))
           Stub.start).2 =
  [ EvBackendFetch Send
      (JObj [ ("recipient_email", JStr "test@example.com");
              ("subject", JStr "Hi"); ("body", JStr "B") ]) ].
Proof. by vm_compute. Qed.

(** * Properties of the batch handler *)

Section DemoPageFacts.

Context {W : Type}.
Variable fetch : ClientRequest → W → Result Response * W.
Variable now : W → string.

#[local] Abbreviation Run := (Run W).
#[local] Abbreviation Loop := (Loop W).

(** The generation step makes exactly one call and touches nothing
    else. *)
Lemma generate_variant_run tone creativity lead (r : Run) res w' :
  fetch (GetEmailPreview (preview_query tone creativity lead)) (world r) = (res, w') →
  (generate_variant fetch tone creativity lead r).2 =
    {| page := page r; world := w';
       events := events r ++ [EvFetch (GetEmailPreview (preview_query tone creativity lead))] |}.
Proof.
  intros Hcall. unfold generate_variant, bind, page_fetch, lift. rewrite Hcall.
  destruct res as [previewRes|e]; [|done].
  destruct (if resp_ok previewRes then _ else _) as [[]|e]; [|done].
  destruct (resp_json previewRes) as [previewData|e]; [|done].
  destruct (get_prop (Some previewData) "variants") as [variants|e]; [|done].
  destruct (get_prop variants "length") as [len|e]; [|done].
  by destruct (is_zero len).
Qed.

Lemma generate_variant_fails tone creativity lead (r : Run) res w' :
  fetch (GetEmailPreview (preview_query tone creativity lead)) (world r) = (res, w') →
  generation_failed res →
  ∃ e, (generate_variant fetch tone creativity lead r).1 = Throw e.
Proof.
  intros Hcall Hfail. unfold generate_variant, bind, page_fetch, lift. rewrite Hcall.
  destruct res as [previewRes|e]; [|by eexists].
  destruct (resp_ok previewRes) eqn:Hok.
  - destruct Hfail as [?|(data & Hjson & Hvariants)]; [congruence|].
    rewrite Hjson, Hvariants. cbn. by eexists.
  - destruct (resp_text previewRes) as [errorText|e]; cbn; by eexists.
Qed.

Lemma statuses_app evs evs' : statuses (evs ++ evs') = statuses evs ++ statuses evs'.
Proof. unfold statuses. apply omap_app. Qed.

Lemma quiet_lift {A} (res : Result A) : quiet (W := W) (lift res).
Proof. by intros r. Qed.

Lemma quiet_bind {A B} (c : Eff Run A) (k : A → Eff Run B) :
  quiet c → (∀ a, quiet (k a)) → quiet (bind c k).
Proof.
  intros Hc Hk r. unfold bind. specialize (Hc r).
  destruct (c r) as [[a|e] r']; [|done].
  destruct (Hk a r') as [Hp Hs]. cbn in Hc. destruct Hc as [Hp' Hs'].
  split; congruence.
Qed.

Lemma quiet_page_fetch req : quiet (page_fetch fetch req).
Proof.
  intros r. unfold page_fetch. destruct (fetch req (world r)) as [res w']. cbn.
  split; [done|]. rewrite statuses_app. cbn. by rewrite app_nil_r.
Qed.

Lemma quiet_try_lead tone creativity lead : quiet (try_lead fetch now tone creativity lead).
Proof.
  unfold try_lead, generate_variant, send_variant.
  repeat (apply quiet_bind; [|intros ?]);
    try apply quiet_lift; try apply quiet_page_fetch.
  by intros r.
Qed.

(** What one iteration of the loop leaves behind, in terms of the
    outcome [res] of its [try] block. *)
Lemma batch_iteration_outcome tone creativity selectedLeads i lead (b : Loop) :
  let r0 := on_page (setBatchProgress
                       (progress selectedLeads b (Some (full_name lead)))) (run b) in
  let res := (try_lead fetch now tone creativity lead r0).1 in
  let b' := batch_iteration fetch now tone creativity selectedLeads i lead b in
  sentCount b' = (if res is Ok _ then S (sentCount b) else sentCount b) ∧
  failedCount b' = (if res is Ok _ then failedCount b else S (failedCount b)) ∧
  leads (page (run b')) =
    mark_status (lead_id lead) (outcome_status res) (leads (page (run b))) ∧
  selectedLeadIds (page (run b')) = selectedLeadIds (page (run b)) ∧
  statuses (events (run b')) =
    statuses (events (run b)) ++ [(lead_id lead, outcome_status res)].
Proof.
  intros r0 res b'. subst b' res. unfold batch_iteration. fold r0.
  destruct (quiet_try_lead tone creativity lead r0) as [Hpage Hst].
  destruct (try_lead fetch now tone creativity lead r0) as [[[]|e] r1];
    cbn in *; rewrite Hpage, !statuses_app, Hst; cbn; by rewrite !app_nil_r.
Qed.

Lemma batch_loop_counts tone creativity selectedLeads rest : ∀ i (b : Loop),
  let b' := batch_loop fetch now tone creativity selectedLeads i rest b in
  sentCount b' + failedCount b' = sentCount b + failedCount b + length rest.
Proof.
  induction rest as [|lead rest IH]; intros i b; cbn; [lia|].
  rewrite IH.
  destruct (batch_iteration_outcome tone creativity selectedLeads i lead b)
    as (Hs & Hf & _).
  rewrite Hs, Hf. case_match; lia.
Qed.

Lemma handleBatchSend_started (r : Run) :
  size (selectedLeadIds (page r)) ≠ 0 →
  let selectedLeads := selected_leads (page r) in
  let b := batch_loop fetch now (tone (page r)) (creativity (page r))
             selectedLeads 0 selectedLeads
             {| run := on_page (setBatchResults None)
                         (on_page (setBatchProgress
                                     (Some {| bp_total := length selectedLeads;
                                              bp_completed := 0; bp_failed := 0;
                                              bp_current := None |}))
                            (on_page (setBatchSending true) r));
                sentCount := 0; failedCount := 0 |} in
  handleBatchSend fetch now r =
    {| page :=
         showToast (summary (sentCount b) (failedCount b))
           (setSelectedLeadIds ∅
              (setBatchResults
                 (Some {| sent := sentCount b; failed := failedCount b;
                          total := length selectedLeads |})
                 (setBatchSending false (setBatchProgress None (page (run b))))));
       world := world (run b);
       events := events (run b) |}.
Proof.
  intros Hsize selectedLeads b. unfold handleBatchSend.
  destruct (Nat.eqb_spec (size (selectedLeadIds (page r))) 0) as [?|_]; [done|].
  reflexivity.
Qed.

(** C1. A batch over a non-empty selection ends with a tally whose
    total is the number of selected leads and in which every lead is
    counted once, as sent or as failed: each iteration of the loop
    increments exactly one of the two counters. *)
Theorem batch_tally_accounts_for_every_lead (r : Run) :
  size (selectedLeadIds (page r)) ≠ 0 →
  (∃ tally,
     batchResults (page (handleBatchSend fetch now r)) = Some tally ∧
     total tally = length (selected_leads (page r)) ∧
     sent tally + failed tally = total tally) ∧
  (∀ tone creativity selectedLeads i lead (b : Loop),
     let b' := batch_iteration fetch now tone creativity selectedLeads i lead b in
     sentCount b' = S (sentCount b) ∧ failedCount b' = failedCount b ∨
     sentCount b' = sentCount b ∧ failedCount b' = S (failedCount b)).
Proof.
  intros Hsize. split.
  - rewrite (handleBatchSend_started r Hsize). cbn. eexists. split; [done|]. cbn.
    split; [done|]. by rewrite batch_loop_counts.
  - intros tone creativity selectedLeads i lead b b'. subst b'.
    destruct (batch_iteration_outcome tone creativity selectedLeads i lead b)
      as (Hs & Hf & _).
    rewrite Hs, Hf. case_match; auto.
Qed.

(** C10. With nothing selected the handler only shows the toast: no
    call is made, and the leads, the progress and the results stay as
    they were. *)
Theorem empty_selection_is_noop (r : Run) :
  size (selectedLeadIds (page r)) = 0 →
  let r' := handleBatchSend fetch now r in
  r' = {| page := showToast "Please select at least one lead" (page r);
          world := world r; events := events r |} ∧
  events r' = events r ∧
  world r' = world r ∧
  leads (page r') = leads (page r) ∧
  batchProgress (page r') = batchProgress (page r) ∧
  batchResults (page r') = batchResults (page r) ∧
  batchSending (page r') = batchSending (page r) ∧
  toast (page r') = Some "Please select at least one lead".
Proof.
  intros Hsize. cbn. unfold handleBatchSend. by rewrite Hsize.
Qed.

(** C4. When the generation step fails for a lead, its iteration makes
    the preview call and no other call (no send), records the lead as
    failed, counts it as failed, and the loop goes on with the leads
    that follow. *)
Theorem failed_generation_skips_send tone creativity selectedLeads i lead rest
    (b : Loop) res w' :
  let preview := GetEmailPreview (preview_query tone creativity lead) in
  fetch preview (world (run b)) = (res, w') →
  generation_failed res →
  let b' := batch_iteration fetch now tone creativity selectedLeads i lead b in
  events (run b') =
    events (run b) ++ [EvFetch preview; EvSetStatus (lead_id lead) "failed"; EvWait 500] ∧
  world (run b') = w' ∧
  leads (page (run b')) = mark_status (lead_id lead) "failed" (leads (page (run b))) ∧
  failedCount b' = S (failedCount b) ∧
  sentCount b' = sentCount b ∧
  batch_loop fetch now tone creativity selectedLeads i (lead :: rest) b =
    batch_loop fetch now tone creativity selectedLeads (S i) rest b'.
Proof.
  intros preview Hcall Hfail b'.
  cut (events (run b') =
         events (run b) ++
         [EvFetch preview; EvSetStatus (lead_id lead) "failed"; EvWait 500] ∧
       world (run b') = w' ∧
       leads (page (run b')) =
         mark_status (lead_id lead) "failed" (leads (page (run b))) ∧
       failedCount b' = S (failedCount b) ∧
       sentCount b' = sentCount b).
  { intros (? & ? & ? & ? & ?). by repeat split. }
  subst b'. unfold batch_iteration.
  set (r0 := on_page _ (run b)).
  pose proof (generate_variant_run tone creativity lead r0 res w' Hcall) as Hrun.
  destruct (generate_variant_fails tone creativity lead r0 res w' Hcall Hfail)
    as [e Hthrow].
  unfold try_lead, bind.
  destruct (generate_variant fetch tone creativity lead r0) as [gen r1].
  cbn in Hrun, Hthrow. subst gen r1. cbn.
  rewrite <- !app_assoc. by repeat split.
Qed.

(** *** The send step *)

Lemma send_rejected_signals sendRes sendData :
  send_rejected sendRes sendData =
  if negb (resp_ok sendRes) then Ok true
  else match sendData with
       | JNull => Throw TypeError
       | _ => Ok (signals_failure sendData)
       end.
Proof.
  unfold send_rejected, signals_failure, field.
  destruct (negb (resp_ok sendRes)); [done|].
  destruct sendData; try done; cbn;
    by destruct (is_false _).
Qed.

Lemma send_variant_accepted lead variant (r : Run) body res w' :
  send_request lead variant (now (world r)) = Ok body →
  fetch (PostSendEmail body) (world r) = (res, w') →
  ∃ e, (send_variant fetch now lead variant r).1 =
       if send_accepted res then Ok () else Throw e.
Proof.
  intros Hbody Hcall.
  unfold send_variant, bind, page_fetch, lift. rewrite Hbody. cbn. rewrite Hcall.
  unfold send_accepted.
  destruct res as [sendRes|e]; [|by exists e].
  destruct (resp_json sendRes) as [sendData|e];
    [|rewrite andb_false_r; by exists e].
  rewrite send_rejected_signals.
  destruct (resp_ok sendRes); cbn; [|by exists (Err "Send failed")].
  destruct sendData; try (by exists TypeError);
    match goal with
    | |- context [signals_failure ?d] => destruct (signals_failure d)
    end; by exists (Err "Send failed").
Qed.

Lemma batch_iteration_send_outcome tone creativity selectedLeads i lead (b : Loop)
    variant r1 body res w' :
  generate_variant fetch tone creativity lead
    (on_page (setBatchProgress (progress selectedLeads b (Some (full_name lead))))
       (run b)) = (Ok variant, r1) →
  send_request lead variant (now (world r1)) = Ok body →
  fetch (PostSendEmail body) (world r1) = (res, w') →
  let b' := batch_iteration fetch now tone creativity selectedLeads i lead b in
  statuses (events (run b')) =
    statuses (events (run b)) ++
    [(lead_id lead, if send_accepted res then "sent" else "failed")] ∧
  leads (page (run b')) =
    mark_status (lead_id lead) (if send_accepted res then "sent" else "failed")
      (leads (page (run b))) ∧
  sentCount b' = (if send_accepted res then S (sentCount b) else sentCount b) ∧
  failedCount b' = (if send_accepted res then failedCount b else S (failedCount b)).
Proof.
  intros Hgen Hbody Hcall b'.
  destruct (batch_iteration_outcome tone creativity selectedLeads i lead b)
    as (Hs & Hf & Hl & _ & Hst).
  fold b' in Hs, Hf, Hl, Hst. rewrite Hs, Hf, Hl, Hst.
  unfold try_lead, bind. rewrite Hgen.
  destruct (send_variant_accepted lead variant r1 body res w' Hbody Hcall) as [e ->].
  by destruct (send_accepted res).
Qed.

(** *** Order of the outcomes and leads outside the batch *)

Lemma batch_loop_statuses tone creativity selectedLeads rest : ∀ i (b : Loop),
  (statuses (events (run (batch_loop fetch now tone creativity selectedLeads i rest b)))).*1 =
  (statuses (events (run b))).*1 ++ (lead_id <$> rest).
Proof.
  induction rest as [|lead rest IH]; intros i b; cbn; [by rewrite app_nil_r|].
  rewrite IH.
  destruct (batch_iteration_outcome tone creativity selectedLeads i lead b)
    as (_ & _ & _ & _ & ->).
  rewrite fmap_app. cbn. by rewrite <- app_assoc.
Qed.

Lemma mark_status_other id status prev k l :
  prev !! k = Some l → lead_id l ≠ id → mark_status id status prev !! k = Some l.
Proof.
  intros Hk Hne. unfold mark_status. rewrite list_lookup_fmap, Hk. cbn.
  destruct (Z.eqb_spec (lead_id l) id); [done|done].
Qed.

Lemma batch_loop_frame tone creativity selectedLeads rest k l : ∀ i (b : Loop),
  leads (page (run b)) !! k = Some l →
  lead_id l ∉ lead_id <$> rest →
  leads (page (run (batch_loop fetch now tone creativity selectedLeads i rest b))) !! k
    = Some l.
Proof.
  induction rest as [|lead rest IH]; intros i b Hk Hnot; cbn; [done|].
  apply IH.
  - destruct (batch_iteration_outcome tone creativity selectedLeads i lead b)
      as (_ & _ & -> & _).
    apply mark_status_other; [done|]. intros Heq. apply Hnot. cbn. rewrite Heq. left.
  - intros Hin. apply Hnot. cbn. by right.
Qed.

Lemma batch_loop_failed_lead B tone creativity selectedLeads rest :
  (∀ lead w, lead_id lead = B →
     generation_failed
       (fetch (GetEmailPreview (preview_query tone creativity lead)) w).1) →
  ∀ i (b : Loop) status,
    (B, status) ∈ statuses (events (run (batch_loop fetch now tone creativity
                                            selectedLeads i rest b))) →
    (B, status) ∈ statuses (events (run b)) ∨ status = "failed".
Proof.
  intros HB. induction rest as [|lead rest IH]; intros i b status Hin; cbn in Hin;
    [by left|].
  destruct (IH _ _ _ Hin) as [Hin'|?]; [|by right].
  destruct (batch_iteration_outcome tone creativity selectedLeads i lead b)
    as (_ & _ & _ & _ & Hst).
  rewrite Hst in Hin'. apply elem_of_app in Hin' as [?|Hlast]; [by left|].
  right. apply list_elem_of_singleton in Hlast. injection Hlast as HidB ->.
  set (r0 := on_page _ (run b)) in *.
  destruct (fetch (GetEmailPreview (preview_query tone creativity lead)) (world r0))
    as [res w'] eqn:Hcall.
  assert (generation_failed res) as Hfail.
  { specialize (HB lead (world r0) (eq_sym HidB)). by rewrite Hcall in HB. }
  destruct (generate_variant_fails tone creativity lead r0 res w' Hcall Hfail)
    as [e Hthrow].
  unfold try_lead, bind.
  destruct (generate_variant fetch tone creativity lead r0) as [gen r1].
  cbn in Hthrow. by subst gen.
Qed.

Lemma selected_leads_ids (p : Page) l :
  lead_id l ∉ selectedLeadIds p → lead_id l ∉ lead_id <$> selected_leads p.
Proof.
  intros Hnot Hin. apply list_elem_of_fmap in Hin as (l' & Heq & Hl').
  unfold selected_leads in Hl'. apply list_elem_of_filter in Hl' as [Hsel _].
  apply Hnot. by rewrite Heq.
Qed.

Lemma selected_ids_filter (ids : gset Z) (ls : list Lead) :
  lead_id <$> filter (λ l, lead_id l ∈ ids) ls =
  filter (λ id, id ∈ ids) (lead_id <$> ls).
Proof.
  induction ls as [|l ls IH]; [done|].
  rewrite fmap_cons, !filter_cons.
  destruct (decide (lead_id l ∈ ids)); cbn; by rewrite IH.
Qed.

(** On a lead list without repeated ids of which the selection is a
    part, the leads of a batch are as many as the selected ids. *)
Lemma selected_leads_length (p : Page) :
  NoDup (lead_id <$> leads p) →
  selectedLeadIds p ⊆ list_to_set (lead_id <$> leads p) →
  length (selected_leads p) = size (selectedLeadIds p).
Proof.
  intros Hnodup Hsub.
  rewrite <- (length_fmap lead_id). unfold selected_leads.
  rewrite selected_ids_filter.
  rewrite <- (size_list_to_set (C := gset Z)); [|by apply NoDup_filter].
  f_equal. apply set_eq. intros id.
  rewrite elem_of_list_to_set, list_elem_of_filter.
  split; [by intros []|]. intros Hid. split; [done|].
  apply Hsub in Hid. by apply elem_of_list_to_set in Hid.
Qed.

End DemoPageFacts.

(** ** Two runs of the batch in worlds that differ for one lead *)

Section Independence.

Context {W1 W2 : Type}.
Variable fetch1 : ClientRequest → W1 → Result Response * W1.
Variable now1 : W1 → string.
Variable fetch2 : ClientRequest → W2 → Result Response * W2.
Variable now2 : W2 → string.
Variable B : Z.

Lemma send_request_clock lead variant t1 t2 :
  match send_request lead variant t1, send_request lead variant t2 with
  | Ok _, Ok _ => True
  | Throw e1, Throw e2 => e1 = e2
  | _, _ => False
  end.
Proof.
  unfold send_request.
  destruct (get_prop variant "id") as [variantId|]; [|done].
  destruct (get_prop variant "subject") as [subject|]; [|done].
  by destruct (get_prop variant "body") as [body|].
Qed.

Lemma try_lead_same_answers tone creativity lead (ra : Run W1) (rb : Run W2) :
  same_answers_except B tone creativity fetch1 fetch2 →
  lead_id lead ≠ B →
  (try_lead fetch1 now1 tone creativity lead ra).1 =
  (try_lead fetch2 now2 tone creativity lead rb).1.
Proof.
  intros [Hpreview Hsend] Hne.
  unfold try_lead, generate_variant, send_variant, bind, page_fetch, lift.
  pose proof (Hpreview lead (world ra) (world rb) Hne) as Hsame.
  destruct (fetch1 _ (world ra)) as [res wa], (fetch2 _ (world rb)) as [res' wb].
  cbn in Hsame. subst res'.
  destruct res as [previewRes|e]; [|done].
  destruct (if resp_ok previewRes then _ else _) as [[]|e]; [|done].
  destruct (resp_json previewRes) as [previewData|e]; [|done].
  destruct (get_prop (Some previewData) "variants") as [variants|e]; [|done].
  destruct (get_prop variants "length") as [len|e]; [|done].
  destruct (is_zero len); [done|]. cbn.
  destruct (get_index0 variants) as [variant|e]; [|done]. cbn.
  pose proof (send_request_clock lead variant (now1 wa) (now2 wb)) as Hclock.
  pose proof (Hsend lead variant (now1 wa) (now2 wb)) as Hsend'.
  destruct (send_request lead variant (now1 wa)) as [body1|e1],
           (send_request lead variant (now2 wb)) as [body2|e2];
    [|done|done|by subst].
  specialize (Hsend' body1 body2 wa wb Hne eq_refl eq_refl).
  destruct (fetch1 (PostSendEmail body1) wa) as [res1 wa'],
           (fetch2 (PostSendEmail body2) wb) as [res2 wb'].
  cbn in Hsend'. subst res2.
  destruct res1 as [sendRes|e]; [|done].
  destruct (resp_json sendRes) as [sendData|e]; [|done].
  destruct (send_rejected sendRes sendData) as [[]|e]; done.
Qed.

Lemma mark_status_unaffected id status1 status2 prev1 prev2 :
  (id ≠ B → status1 = status2) →
  Forall2 (unaffected B) prev1 prev2 →
  Forall2 (unaffected B) (mark_status id status1 prev1) (mark_status id status2 prev2).
Proof.
  intros Hstatus Hprev. unfold mark_status. apply Forall2_fmap.
  eapply Forall2_impl; [exact Hprev|].
  intros l1 l2 [Hid Hsame]. cbn. rewrite <- Hid.
  destruct (Z.eqb_spec (lead_id l1) id) as [Heq|Hneq]; [|done].
  split; [done|]. cbn. intros HneB. rewrite (Hsame HneB), Hstatus; [done|congruence].
Qed.

Lemma about_others_app l l' :
  about_others B (l ++ l') = about_others B l ++ about_others B l'.
Proof. unfold about_others. apply List.filter_app. Qed.

Lemma batch_loop_independent tone creativity selectedLeads1 selectedLeads2 rest :
  same_answers_except B tone creativity fetch1 fetch2 →
  ∀ i1 i2 (b1 : Loop W1) (b2 : Loop W2),
    Forall2 (unaffected B) (leads (page (run b1))) (leads (page (run b2))) →
    about_others B (statuses (events (run b1))) =
    about_others B (statuses (events (run b2))) →
    let b1' := batch_loop fetch1 now1 tone creativity selectedLeads1 i1 rest b1 in
    let b2' := batch_loop fetch2 now2 tone creativity selectedLeads2 i2 rest b2 in
    Forall2 (unaffected B) (leads (page (run b1'))) (leads (page (run b2'))) ∧
    about_others B (statuses (events (run b1'))) =
    about_others B (statuses (events (run b2'))).
Proof.
  intros Hsame. induction rest as [|lead rest IH]; intros i1 i2 b1 b2 Hleads Hst;
    cbn; [done|].
  destruct (batch_iteration_outcome fetch1 now1 tone creativity selectedLeads1 i1 lead b1)
    as (_ & _ & Hl1 & _ & Hs1).
  destruct (batch_iteration_outcome fetch2 now2 tone creativity selectedLeads2 i2 lead b2)
    as (_ & _ & Hl2 & _ & Hs2).
  apply IH.
  - rewrite Hl1, Hl2. apply mark_status_unaffected; [|done].
    intros Hne. f_equal. by apply try_lead_same_answers.
  - rewrite Hs1, Hs2, !about_others_app, Hst. f_equal.
    unfold about_others. cbn.
    destruct (Z.eqb_spec (lead_id lead) B) as [?|Hne]; [done|]. cbn.
    do 3 f_equal. by apply try_lead_same_answers.
Qed.

End Independence.

(** C6. The statuses of a batch are recorded in the order of the
    selected leads. When the generation step fails for lead [B], every
    status recorded for [B] is ["failed"], and nothing else depends on
    [B]: in a second world that answers the calls made for the other
    leads in the same way, the statuses recorded for the other leads and
    their records at the end are the same; a lead that is not selected
    keeps its record. *)
Theorem batch_outcomes_ordered_and_independent {W1 W2 : Type}
    (fetch1 : ClientRequest → W1 → Result Response * W1) (now1 : W1 → string)
    (fetch2 : ClientRequest → W2 → Result Response * W2) (now2 : W2 → string)
    (p : Page) (w1 : W1) (w2 : W2) (B : Z) :
  size (selectedLeadIds p) ≠ 0 →
  same_answers_except B (tone p) (creativity p) fetch1 fetch2 →
  (∀ lead w, lead_id lead = B →
     generation_failed
       (fetch1 (GetEmailPreview (preview_query (tone p) (creativity p) lead)) w).1) →
  let r1 := handleBatchSend fetch1 now1 {| page := p; world := w1; events := [] |} in
  let r2 := handleBatchSend fetch2 now2 {| page := p; world := w2; events := [] |} in
  (statuses (events r1)).*1 = lead_id <$> selected_leads p ∧
  (statuses (events r2)).*1 = lead_id <$> selected_leads p ∧
  (∀ status, (B, status) ∈ statuses (events r1) → status = "failed") ∧
  about_others B (statuses (events r1)) = about_others B (statuses (events r2)) ∧
  Forall2 (unaffected B) (leads (page r1)) (leads (page r2)) ∧
  (∀ k l, leads p !! k = Some l → lead_id l ∉ selectedLeadIds p →
          leads (page r1) !! k = Some l ∧ leads (page r2) !! k = Some l).
Proof.
  intros Hsize Hsame HB r1 r2. subst r1 r2.
  rewrite (handleBatchSend_started fetch1 now1
             {| page := p; world := w1; events := [] |} Hsize).
  rewrite (handleBatchSend_started fetch2 now2
             {| page := p; world := w2; events := [] |} Hsize). cbn.
  split; [by rewrite batch_loop_statuses|].
  split; [by rewrite batch_loop_statuses|].
  split.
  { intros status Hin.
    by destruct (batch_loop_failed_lead fetch1 now1 B _ _ _ _ HB _ _ _ Hin)
      as [Hnil%elem_of_nil|]. }
  assert (Hrefl : Forall2 (unaffected B) (leads p) (leads p)).
  { apply Forall_Forall2_diag, Forall_forall. by intros l _. }
  destruct (batch_loop_independent fetch1 now1 fetch2 now2 B (tone p) (creativity p)
              (selected_leads p) (selected_leads p) (selected_leads p) Hsame 0 0
              {| run := {| page := setBatchResults None
                                     (setBatchProgress
                                        (Some {| bp_total := length (selected_leads p);
                                                 bp_completed := 0; bp_failed := 0;
                                                 bp_current := None |})
                                        (setBatchSending true p));
                           world := w1; events := [] |};
                 sentCount := 0; failedCount := 0 |}
              {| run := {| page := setBatchResults None
                                     (setBatchProgress
                                        (Some {| bp_total := length (selected_leads p);
                                                 bp_completed := 0; bp_failed := 0;
                                                 bp_current := None |})
                                        (setBatchSending true p));
                           world := w2; events := [] |};
                 sentCount := 0; failedCount := 0 |}
              Hrefl eq_refl) as [Hleads Hstatuses].
  split; [exact Hstatuses|]. split; [exact Hleads|].
  intros k l Hk Hnot.
  split; apply batch_loop_frame; try done; by apply selected_leads_ids.
Qed.

Lemma string_of_Z_inj a b : string_of_Z a = string_of_Z b → a = b.
Proof.
  assert (Hback : ∀ z, NilZero.int_of_string (string_of_Z z) = Some (Z.to_int z)).
  { intros z. apply NilZero.isi; destruct z; cbn; try discriminate;
      intros [= Hnil]; by apply Unsigned.to_uint_nonnil in Hnil. }
  intros Heq. apply DecimalZ.to_int_inj.
  apply (f_equal NilZero.int_of_string) in Heq. rewrite !Hback in Heq. by injection Heq.
Qed.

Lemma batch_outcomes_ordered_and_independent_witness :
  let p := Scenario.page_with [Scenario.john; Scenario.sarah; Scenario.carlos]
             {[1%Z; 2%Z; 3%Z]} in
  let r1 := handleBatchSend (Scenario.fetch_failing_preview (Some 2%Z)) Scenario.clock
              {| page := p; world := (); events := [] |} in
  let r2 := handleBatchSend (Scenario.fetch_failing_preview None) Scenario.clock
              {| page := p; world := (); events := [] |} in
  (statuses (events r1)).*1 = lead_id <$> selected_leads p ∧
  (statuses (events r2)).*1 = lead_id <$> selected_leads p ∧
  (∀ status, (2%Z, status) ∈ statuses (events r1) → status = "failed") ∧
  about_others 2 (statuses (events r1)) = about_others 2 (statuses (events r2)) ∧
  Forall2 (unaffected 2) (leads (page r1)) (leads (page r2)) ∧
  (∀ k l, leads p !! k = Some l → lead_id l ∉ selectedLeadIds p →
          leads (page r1) !! k = Some l ∧ leads (page r2) !! k = Some l).
Proof.
  intros p.
  apply (batch_outcomes_ordered_and_independent
           (Scenario.fetch_failing_preview (Some 2%Z)) Scenario.clock
           (Scenario.fetch_failing_preview None) Scenario.clock p () () 2%Z).
  - by vm_compute.
  - split.
    + intros lead [] [] Hne. cbn.
      rewrite bool_decide_eq_false_2; [done|].
      intros [= Heq]. by apply (string_of_Z_inj _ 2) in Heq.
    + done.
  - intros lead [] Hid. cbn. rewrite Hid. by left.
Defined.

(** The three-lead batch of the specification: A, B and C selected, the
    generation for B failing. *)
Example batch_of_three_with_failing_middle :
  let p := Scenario.page_with [Scenario.john; Scenario.sarah; Scenario.carlos]
             {[1%Z; 2%Z; 3%Z]} in
  let r := handleBatchSend (Scenario.fetch_failing_preview (Some 2%Z)) Scenario.clock
             (Scenario.start p) in
  statuses (events r) = [(1%Z, "sent"); (2%Z, "failed"); (3%Z, "sent")] ∧
  batchResults (page r) = Some {| sent := 2; failed := 1; total := 3 |} ∧
  field "leadId" <$> send_calls (events r) = [Some (JNum 1); Some (JNum 3)].
Proof. by vm_compute. Qed.

(** *** The handler on the test doubles *)

Lemma batch_tally_accounts_for_every_lead_witness :
  let r := Scenario.start
             (Scenario.page_with [Scenario.john; Scenario.sarah; Scenario.carlos]
                {[1%Z; 3%Z]}) in
  ∃ tally,
    batchResults (page (handleBatchSend (Scenario.fetch_failing_preview (Some 3%Z))
                          Scenario.clock r)) = Some tally ∧
    total tally = length (selected_leads (page r)) ∧
    sent tally + failed tally = total tally.
Proof.
  intros r.
  apply (batch_tally_accounts_for_every_lead
           (Scenario.fetch_failing_preview (Some 3%Z)) Scenario.clock r).
  by vm_compute.
Defined.

Lemma empty_selection_is_noop_witness :
  let r := Scenario.start (Scenario.page_with [Scenario.john; Scenario.sarah] ∅) in
  let r' := handleBatchSend (Scenario.fetch_failing_preview None) Scenario.clock r in
  r' = {| page := showToast "Please select at least one lead" (page r);
          world := world r; events := events r |} ∧
  events r' = events r ∧
  world r' = world r ∧
  leads (page r') = leads (page r) ∧
  batchProgress (page r') = batchProgress (page r) ∧
  batchResults (page r') = batchResults (page r) ∧
  batchSending (page r') = batchSending (page r) ∧
  toast (page r') = Some "Please select at least one lead".
Proof.
  intros r.
  apply (empty_selection_is_noop (Scenario.fetch_failing_preview None) Scenario.clock r).
  by vm_compute.
Defined.

Lemma failed_generation_skips_send_witness :
  let fetch := Scenario.fetch_failing_preview (Some 2%Z) in
  let selectedLeads := [Scenario.john; Scenario.sarah; Scenario.carlos] in
  let preview := GetEmailPreview (preview_query "Friendly" "0.6" Scenario.sarah) in
  let b : Loop unit :=
    {| run := Scenario.start (Scenario.page_with selectedLeads {[1%Z; 2%Z; 3%Z]});
       sentCount := 1; failedCount := 0 |} in
  let b' := batch_iteration fetch Scenario.clock "Friendly" "0.6" selectedLeads 1
              Scenario.sarah b in
  events (run b') =
    events (run b) ++
    [EvFetch preview; EvSetStatus (lead_id Scenario.sarah) "failed"; EvWait 500] ∧
  world (run b') = () ∧
  leads (page (run b')) =
    mark_status (lead_id Scenario.sarah) "failed" (leads (page (run b))) ∧
  failedCount b' = S (failedCount b) ∧
  sentCount b' = sentCount b ∧
  batch_loop fetch Scenario.clock "Friendly" "0.6" selectedLeads 1
    (Scenario.sarah :: [Scenario.carlos]) b =
  batch_loop fetch Scenario.clock "Friendly" "0.6" selectedLeads 2 [Scenario.carlos] b'.
Proof.
  intros fetch selectedLeads preview b.
  eapply (failed_generation_skips_send fetch Scenario.clock "Friendly" "0.6"
            selectedLeads 1 Scenario.sarah [Scenario.carlos] b);
    [reflexivity | by left].
Defined.

(** The same failure by an empty list of variants. *)
Example zero_variants_skip_send :
  let fetch (req : ClientRequest) (_ : unit) : Result Response * unit :=
    (Ok (Stub.success (JObj [("variants", JArr [])]) ""), ()) in
  let r := handleBatchSend fetch Scenario.clock
             (Scenario.start (Scenario.page_with [Scenario.john] {[1%Z]})) in
  send_calls (events r) = [] ∧
  statuses (events r) = [(1%Z, "failed")] ∧
  batchResults (page r) = Some {| sent := 0; failed := 1; total := 1 |}.
Proof. by vm_compute. Qed.

(** C5, as the handler has it. Once a variant has been generated for a
    lead and the send request built from it, the lead is recorded and
    counted as sent exactly when the send call returns a success status
    and a JSON body other than [null] in which [ok] is not [false] and
    [status] is either falsy (absent, [null], [false], 0 or the empty
    string) or equal to ["success"]; otherwise it is recorded and counted
    as failed. On the leads 1 and 2, with one variant generated for each
    and the send answered [{ ok: false }] for lead 2 only, the tally is
    1 sent, 1 failed, 2 in total, lead 1 is ["sent"] and lead 2 is
    ["failed"]. *)
Theorem send_classified_by_status_and_payload :
  (∀ (W : Type) (fetch : ClientRequest → W → Result Response * W) (now : W → string)
     tone creativity selectedLeads i lead (b : Loop W) variant r1 body res w',
     generate_variant fetch tone creativity lead
       (on_page (setBatchProgress (progress selectedLeads b (Some (full_name lead))))
          (run b)) = (Ok variant, r1) →
     send_request lead variant (now (world r1)) = Ok body →
     fetch (PostSendEmail body) (world r1) = (res, w') →
     let b' := batch_iteration fetch now tone creativity selectedLeads i lead b in
     statuses (events (run b')) =
       statuses (events (run b)) ++
       [(lead_id lead, if send_accepted res then "sent" else "failed")] ∧
     leads (page (run b')) =
       mark_status (lead_id lead) (if send_accepted res then "sent" else "failed")
         (leads (page (run b))) ∧
     sentCount b' = (if send_accepted res then S (sentCount b) else sentCount b) ∧
     failedCount b' = (if send_accepted res then failedCount b else S (failedCount b))) ∧
  (let r := handleBatchSend
              (Scenario.fetch_rejecting 2 (JObj [("ok", JBool false)])) Scenario.clock
              (Scenario.start
                 (Scenario.page_with [Scenario.john; Scenario.sarah] {[1%Z; 2%Z]})) in
   batchResults (page r) = Some {| sent := 1; failed := 1; total := 2 |} ∧
   lead_status <$> leads (page r) = [Some "sent"; Some "failed"] ∧
   statuses (events r) = [(1%Z, "sent"); (2%Z, "failed")]).
Proof.
  split; [intros; by eapply batch_iteration_send_outcome|].
  by vm_compute.
Qed.

Lemma send_classified_by_status_and_payload_witness :
  let fetch := Scenario.fetch_rejecting 2 (JObj [("ok", JBool false)]) in
  let res : Result Response := Ok (Stub.success (JObj [("ok", JBool true)]) "") in
  let b : Loop unit :=
    {| run := Scenario.start (Scenario.page_with [Scenario.john] {[1%Z]});
       sentCount := 0; failedCount := 0 |} in
  let b' := batch_iteration fetch Scenario.clock "Friendly" "0.6"
              [Scenario.john] 0 Scenario.john b in
  statuses (events (run b')) =
    statuses (events (run b)) ++
    [(lead_id Scenario.john, if send_accepted res then "sent" else "failed")] ∧
  leads (page (run b')) =
    mark_status (lead_id Scenario.john) (if send_accepted res then "sent" else "failed")
      (leads (page (run b))) ∧
  sentCount b' = (if send_accepted res then S (sentCount b) else sentCount b) ∧
  failedCount b' = (if send_accepted res then failedCount b else S (failedCount b)).
Proof.
  intros fetch res b.
  eapply (proj1 send_classified_by_status_and_payload unit fetch Scenario.clock
            "Friendly" "0.6" [Scenario.john] 0 Scenario.john b);
    reflexivity.
Defined.

(** C5 as stated fails in both directions: a payload [{ status: "" }] has
    a [status] that is present and is not ["success"], yet the lead is
    counted as sent; a [null] payload signals nothing, yet the lead is
    counted as failed. *)
Lemma empty_status_sent_null_payload_failed :
  (let payload := JObj [("status", JStr "")] in
   let r := handleBatchSend (Scenario.fetch_rejecting 1 payload) Scenario.clock
              (Scenario.start (Scenario.page_with [Scenario.john] {[1%Z]})) in
   send_accepted_as_stated (Ok (Stub.success payload "")) = false ∧
   batchResults (page r) = Some {| sent := 1; failed := 0; total := 1 |} ∧
   lead_status <$> leads (page r) = [Some "sent"]) ∧
  (let r := handleBatchSend (Scenario.fetch_rejecting 1 JNull) Scenario.clock
              (Scenario.start (Scenario.page_with [Scenario.john] {[1%Z]})) in
   send_accepted_as_stated (Ok (Stub.success JNull "")) = true ∧
   batchResults (page r) = Some {| sent := 0; failed := 1; total := 1 |} ∧
   lead_status <$> leads (page r) = [Some "failed"]).
Proof. by vm_compute. Qed.

(** The scenario of C5 with the page served by the routes and the backend
    as the stub: the send for Sarah (lead 2) is answered [{ ok: false }].
    Four calls reach the backend, none is retried, and both sends go to
    the fixed recipient. *)
Example batch_of_two_through_the_routes (JSON_stringify : json → string) :
  let r := handleBatchSend
             (route_fetch (Stub.by_subject "Sarah") StringToNumber.Number
                toLowerCase_ascii JSON_stringify)
             Scenario.clock
             {| page := Scenario.page_with [Scenario.john; Scenario.sarah] {[1%Z; 2%Z]};
                world := Stub.start; events := [] |} in
  batchResults (page r) = Some {| sent := 1; failed := 1; total := 2 |} ∧
  lead_status <$> leads (page r) = [Some "sent"; Some "failed"] ∧
  attempts (trace (world r)) = 4 ∧ delays (trace (world r)) = 0 ∧
  send_recipients (trace (world r)) =
    [Some (JStr "test@example.com"); Some (JStr "test@example.com")].
Proof. by vm_compute. Qed.

(** * Further properties of the page *)

Set Warnings "-clear-no-such-hyp".

(** ** Selection *)

Lemma size_list_to_set_le (l : list Z) : size (list_to_set (C := gset Z) l) ≤ length l.
Proof.
  induction l as [|x l IH]; [done|]. cbn.
  destruct (decide (x ∈ l)) as [Hin|Hnot].
  - assert ({[x]} ∪ list_to_set l = list_to_set (C := gset Z) l) as -> by set_solver. lia.
  - rewrite size_union by set_solver. rewrite size_singleton. lia.
Qed.

Lemma size_list_to_set_dup (l : list Z) :
  ¬ NoDup l → size (list_to_set (C := gset Z) l) < length l.
Proof.
  induction l as [|x l IH]; intros Hdup; [destruct Hdup; constructor|]. cbn.
  destruct (decide (x ∈ l)) as [Hin|Hnot].
  - assert ({[x]} ∪ list_to_set l = list_to_set (C := gset Z) l) as -> by set_solver.
    pose proof (size_list_to_set_le l). lia.
  - rewrite size_union by set_solver. rewrite size_singleton.
    assert (¬ NoDup l) as Hdup' by (intros Hl; apply Hdup; by constructor).
    specialize (IH Hdup'). lia.
Qed.

Lemma filter_all_selected (ids : gset Z) (ls : list Lead) :
  Forall (λ l, lead_id l ∈ ids) ls → filter (λ l, lead_id l ∈ ids) ls = ls.
Proof.
  induction 1 as [|l ls Hl _ IH]; [done|].
  rewrite filter_cons. destruct (decide (lead_id l ∈ ids)); [by rewrite IH|done].
Qed.

(** X1. Clicking the box of a lead twice restores the selection; one
    click flips the membership of that lead and of no other. *)
Theorem select_lead_toggles leadId (p : Page) :
  handleSelectLead leadId (handleSelectLead leadId p) = p ∧
  (leadId ∈ selectedLeadIds (handleSelectLead leadId p) ↔ leadId ∉ selectedLeadIds p) ∧
  (∀ id, id ≠ leadId →
     id ∈ selectedLeadIds (handleSelectLead leadId p) ↔ id ∈ selectedLeadIds p).
Proof.
  destruct p as [ls t c ids bs bp br ts]. unfold handleSelectLead, setSelectedLeadIds. cbn.
  destruct (decide (leadId ∈ ids)) as [Hin|Hnot].
  - rewrite (bool_decide_eq_true_2 _ Hin). cbn.
    rewrite bool_decide_eq_false_2 by set_solver.
    split; [|set_solver]. f_equal. apply set_eq. intros id.
    destruct (decide (id = leadId)); set_solver.
  - rewrite (bool_decide_eq_false_2 _ Hnot). cbn.
    rewrite bool_decide_eq_true_2 by set_solver.
    split; [|set_solver]. f_equal. apply set_eq. intros id.
    destruct (decide (id = leadId)); set_solver.
Qed.

Lemma handleSelectAll_fills (p : Page) :
  size (selectedLeadIds p) ≠ length (leads p) →
  selectedLeadIds (handleSelectAll p) = list_to_set (lead_id <$> leads p) ∧
  selected_leads (handleSelectAll p) = leads p.
Proof.
  intros Hsize. unfold handleSelectAll.
  destruct (Nat.eqb_spec (size (selectedLeadIds p)) (length (leads p))) as [?|_]; [done|].
  split; [done|]. unfold selected_leads. cbn.
  apply filter_all_selected, Forall_forall. intros l Hl.
  apply elem_of_list_to_set, list_elem_of_fmap. by exists l.
Qed.

(** X2. When the selection does not count as many ids as there are
    leads, select-all selects the id of every lead, and the next batch
    is the whole lead list in its order. *)
Theorem select_all_selects_every_lead (p : Page) :
  size (selectedLeadIds p) ≠ length (leads p) →
  selectedLeadIds (handleSelectAll p) = list_to_set (lead_id <$> leads p) ∧
  selected_leads (handleSelectAll p) = leads p.
Proof. apply handleSelectAll_fills. Qed.

(** X3. On a non-empty lead list without repeated ids the header box
    is a toggle: a click on it turns its checked state into the
    opposite one. *)
Theorem select_all_is_a_toggle (p : Page) :
  NoDup (lead_id <$> leads p) →
  leads p ≠ [] →
  select_all_checked (handleSelectAll p) = negb (select_all_checked p).
Proof.
  intros Hnodup Hne. unfold select_all_checked, handleSelectAll.
  pose proof (size_list_to_set (C := gset Z) _ Hnodup) as Hall.
  rewrite length_fmap in Hall.
  destruct (length (leads p)) as [|n] eqn:Hlen; [by destruct (leads p)|].
  destruct (Nat.eqb_spec (size (selectedLeadIds p)) (S n)) as [Heq|Hneq]; cbn.
  - by rewrite size_empty, Hlen.
  - by rewrite Hall, Hlen, Nat.eqb_refl.
Qed.

(** X4. When two leads share an id and the selection holds ids of
    leads only, the header box is never checked and a click on it never
    clears the selection: it selects every id again. *)
Theorem select_all_with_repeated_ids (p : Page) :
  ¬ NoDup (lead_id <$> leads p) →
  selectedLeadIds p ⊆ list_to_set (lead_id <$> leads p) →
  select_all_checked p = false ∧
  selectedLeadIds (handleSelectAll p) = list_to_set (lead_id <$> leads p) ∧
  select_all_checked (handleSelectAll p) = false.
Proof.
  intros Hdup Hsub.
  pose proof (size_list_to_set_dup _ Hdup) as Hlt. rewrite length_fmap in Hlt.
  pose proof (subseteq_size _ _ Hsub) as Hle.
  unfold select_all_checked, handleSelectAll.
  destruct (Nat.eqb_spec (size (selectedLeadIds p)) (length (leads p))) as [?|_]; [lia|].
  cbn. split; [done|]. split; [done|].
  destruct (Nat.eqb_spec (size (list_to_set (C := gset Z) (lead_id <$> leads p)))
              (length (leads p))); [lia|done].
Qed.

(** ** The batch as a whole *)

Section BatchFacts.

Context {W : Type}.
Variable fetch : ClientRequest → W → Result Response * W.
Variable now : W → string.

Lemma preview_calls_app evs evs' :
  preview_calls (evs ++ evs') = preview_calls evs ++ preview_calls evs'.
Proof. unfold preview_calls. apply omap_app. Qed.

Lemma send_calls_app evs evs' : send_calls (evs ++ evs') = send_calls evs ++ send_calls evs'.
Proof. unfold send_calls. apply omap_app. Qed.

Lemma waits_app evs evs' : waits (evs ++ evs') = waits evs ++ waits evs'.
Proof. unfold waits. apply omap_app. Qed.

(** The calls of the [try] block: the preview call, then at most one
    send call, which is there whenever the block completes. *)
Lemma try_lead_calls tone creativity lead (r : Run W) :
  ∃ sends,
    events (try_lead fetch now tone creativity lead r).2 =
      events r ++ EvFetch (GetEmailPreview (preview_query tone creativity lead))
               :: (EvFetch ∘ PostSendEmail <$> sends) ∧
    length sends ≤ 1 ∧
    (∀ u, (try_lead fetch now tone creativity lead r).1 = Ok u → length sends = 1) ∧
    ∃ reqs, world_after fetch reqs (world r) =
              world (try_lead fetch now tone creativity lead r).2 ∧
            length reqs ≤ 2.
Proof.
  destruct (fetch (GetEmailPreview (preview_query tone creativity lead)) (world r))
    as [res w'] eqn:Hcall.
  pose proof (generate_variant_run fetch tone creativity lead r res w' Hcall) as Hrun.
  unfold try_lead, bind.
  destruct (generate_variant fetch tone creativity lead r) as [[variant|e] r1];
    cbn in Hrun; subst r1.
  2:{ exists []. cbn. split; [done|]. split; [lia|]. split; [done|].
      exists [GetEmailPreview (preview_query tone creativity lead)]. cbn.
      rewrite Hcall. split; [done|lia]. }
  unfold send_variant, bind, page_fetch, lift. cbn.
  destruct (send_request lead variant (now w')) as [body|e].
  2:{ exists []. cbn. split; [done|]. split; [lia|]. split; [done|].
      exists [GetEmailPreview (preview_query tone creativity lead)]. cbn.
      rewrite Hcall. split; [done|lia]. }
  destruct (fetch (PostSendEmail body) w') as [res2 w2] eqn:Hcall2.
  exists [body].
  assert (Hworld : ∃ reqs, world_after fetch reqs (world r) = w2 ∧ length reqs ≤ 2).
  { exists [GetEmailPreview (preview_query tone creativity lead); PostSendEmail body].
    cbn. rewrite Hcall. cbn. rewrite Hcall2. split; [done|lia]. }
  destruct res2 as [sendRes|e]; [|by cbn; rewrite <- app_assoc].
  destruct (resp_json sendRes) as [sendData|e]; [|by cbn; rewrite <- app_assoc].
  destruct (send_rejected sendRes sendData) as [[]|e]; by cbn; rewrite <- app_assoc.
Qed.

Lemma world_after_bound (m : W → nat) (k : nat) :
  (∀ req w, m (fetch req w).2 ≤ m w + k) →
  ∀ reqs w, m (world_after fetch reqs w) ≤ m w + k * length reqs.
Proof.
  intros Hstep reqs. induction reqs as [|req reqs IH]; intros w; cbn; [lia|].
  specialize (IH (fetch req w).2). specialize (Hstep req w). lia.
Qed.

(** What one iteration adds to the record of the run. *)
Lemma batch_iteration_calls tone creativity selectedLeads i lead (b : Loop W) :
  let b' := batch_iteration fetch now tone creativity selectedLeads i lead b in
  ∃ sends,
    events (run b') =
      events (run b) ++ EvFetch (GetEmailPreview (preview_query tone creativity lead))
                     :: (EvFetch ∘ PostSendEmail <$> sends)
                     ++ [EvSetStatus (lead_id lead)
                           (if decide (sentCount b' = S (sentCount b)) then "sent" else "failed");
                         EvWait 500] ∧
    length sends ≤ 1 ∧
    (sentCount b' = S (sentCount b) ∧ failedCount b' = failedCount b ∧ length sends = 1 ∨
     sentCount b' = sentCount b ∧ failedCount b' = S (failedCount b)) ∧
    ∃ reqs, world_after fetch reqs (world (run b)) = world (run b') ∧ length reqs ≤ 2.
Proof.
  intros b'. subst b'. unfold batch_iteration.
  set (r0 := on_page _ (run b)).
  destruct (try_lead_calls tone creativity lead r0) as (sends & Hev & Hle & Hok & Hworld).
  exists sends.
  destruct (try_lead fetch now tone creativity lead r0) as [[u|e] r1]; cbn in *.
  - rewrite Hev. destruct (decide (S (sentCount b) = S (sentCount b))); [|done].
    rewrite <- !app_assoc. cbn.
    split; [done|]. split; [done|]. split; [|done]. left. by rewrite (Hok u).
  - rewrite Hev. destruct (decide (sentCount b = S (sentCount b))); [lia|].
    rewrite <- !app_assoc. cbn.
    split; [done|]. split; [done|]. split; [|done]. by right.
Qed.

Lemma batch_loop_calls tone creativity selectedLeads rest : ∀ i (b : Loop W),
  let b' := batch_loop fetch now tone creativity selectedLeads i rest b in
  preview_calls (events (run b')) =
    preview_calls (events (run b)) ++ (preview_query tone creativity <$> rest) ∧
  waits (events (run b')) = waits (events (run b)) ++ replicate (length rest) 500%Z ∧
  length (send_calls (events (run b'))) ≤ length (send_calls (events (run b))) + length rest ∧
  sentCount b' + length (send_calls (events (run b))) ≤
    sentCount b + length (send_calls (events (run b'))) ∧
  sentCount b' + recorded "sent" (statuses (events (run b))) =
    sentCount b + recorded "sent" (statuses (events (run b'))) ∧
  failedCount b' + recorded "failed" (statuses (events (run b))) =
    failedCount b + recorded "failed" (statuses (events (run b'))).
Proof.
  induction rest as [|lead rest IH]; intros i b; cbn.
  { rewrite !app_nil_r. repeat split; lia. }
  destruct (IH (S i) (batch_iteration fetch now tone creativity selectedLeads i lead b))
    as (Hp & Hw & Hs & Hc & Hrs & Hrf).
  pose proof (batch_iteration_calls tone creativity selectedLeads i lead b) as Hcalls.
  cbv zeta in Hcalls. destruct Hcalls as (sends & Hev & Hle & Hcount & _).
  set (b1 := batch_iteration fetch now tone creativity selectedLeads i lead b) in *.
  assert (Hpre : preview_calls (events (run b1)) =
                 preview_calls (events (run b)) ++ [preview_query tone creativity lead]).
  { rewrite Hev, preview_calls_app. f_equal. cbn. rewrite preview_calls_app.
    assert (preview_calls (EvFetch ∘ PostSendEmail <$> sends) = []) as ->
      by (clear; by induction sends).
    done. }
  assert (Hwait : waits (events (run b1)) = waits (events (run b)) ++ [500%Z]).
  { rewrite Hev, waits_app. f_equal. cbn. rewrite waits_app.
    assert (waits (EvFetch ∘ PostSendEmail <$> sends) = []) as ->
      by (clear; by induction sends).
    done. }
  assert (Hsend : length (send_calls (events (run b1))) =
                  length (send_calls (events (run b))) + length sends).
  { rewrite Hev, send_calls_app, length_app. f_equal. cbn. rewrite send_calls_app.
    assert (send_calls (EvFetch ∘ PostSendEmail <$> sends) = sends) as ->
      by (clear; induction sends; cbn; [done|by f_equal]).
    rewrite length_app. cbn. lia. }
  assert (Hst : statuses (events (run b1)) =
                statuses (events (run b)) ++
                [(lead_id lead,
                  if decide (sentCount b1 = S (sentCount b)) then "sent" else "failed")]).
  { rewrite Hev, statuses_app. f_equal. cbn. rewrite statuses_app.
    assert (statuses (EvFetch ∘ PostSendEmail <$> sends) = []) as ->
      by (clear; by induction sends).
    done. }
  clearbody b1.
  rewrite Hp, Hw, Hpre, Hwait, <- !app_assoc. cbn.
  split; [done|]. split; [done|].
  assert (Hrec : ∀ status, recorded status (statuses (events (run b1))) =
                 recorded status (statuses (events (run b))) +
                 (if String.eqb (if decide (sentCount b1 = S (sentCount b))
                                 then "sent" else "failed") status then 1 else 0)).
  { intros status. rewrite Hst. unfold recorded.
    rewrite List.filter_app, length_app. cbn.
    by destruct (String.eqb _ status). }
  pose proof (Hrec "sent") as Hrec1. pose proof (Hrec "failed") as Hrec2.
  destruct (decide (sentCount b1 = S (sentCount b))); cbn in Hrec1, Hrec2;
    destruct Hcount as [(? & ? & ?)|(? & ?)]; try lia; repeat split; lia.
Qed.

Lemma mark_status_ids id status prev :
  lead_id <$> mark_status id status prev = lead_id <$> prev.
Proof.
  unfold mark_status. rewrite <- list_fmap_compose. apply list_fmap_ext.
  intros k l _. cbn. by destruct (lead_id l =? id)%Z.
Qed.

Lemma batch_loop_ids tone creativity selectedLeads rest : ∀ i (b : Loop W),
  lead_id <$> leads (page (run (batch_loop fetch now tone creativity selectedLeads i rest b)))
  = lead_id <$> leads (page (run b)).
Proof.
  induction rest as [|lead rest IH]; intros i b; cbn; [done|].
  rewrite IH.
  destruct (batch_iteration_outcome fetch now tone creativity selectedLeads i lead b)
    as (_ & _ & -> & _).
  apply mark_status_ids.
Qed.

Lemma batch_loop_settled tone creativity selectedLeads rest :
  ∀ (P : Z → Prop) i (b : Loop W),
    Forall (λ l, P (lead_id l) → settled l) (leads (page (run b))) →
    Forall (λ l, P (lead_id l) ∨ lead_id l ∈ lead_id <$> rest → settled l)
      (leads (page (run (batch_loop fetch now tone creativity selectedLeads i rest b)))).
Proof.
  induction rest as [|lead rest IH]; intros P i b Hinv; cbn.
  { eapply Forall_impl; [exact Hinv|]. intros l Hl [?|Hin]; [auto|by apply elem_of_nil in Hin]. }
  eapply Forall_impl.
  - apply (IH (λ id, P id ∨ id = lead_id lead)).
    destruct (batch_iteration_outcome fetch now tone creativity selectedLeads i lead b)
      as (_ & _ & -> & _).
    unfold mark_status. apply Forall_fmap.
    eapply Forall_impl; [exact Hinv|].
    intros l Hl. cbn.
    destruct (Z.eqb_spec (lead_id l) (lead_id lead)) as [Heq|Hne].
    + intros _. unfold settled. cbn.
      match goal with |- context [outcome_status ?res] => destruct res end; cbn; auto.
    + intros [?|?]; [auto|done].
  - intros l Hl [?|Hin]; [auto|].
    apply Hl. apply elem_of_cons in Hin as [?|?]; auto.
Qed.

Lemma batch_loop_world_bound (m : W → nat) (k : nat) tone creativity selectedLeads rest :
  (∀ req w, m (fetch req w).2 ≤ m w + k) →
  ∀ i (b : Loop W),
    m (world (run (batch_loop fetch now tone creativity selectedLeads i rest b)))
    ≤ m (world (run b)) + 2 * k * length rest.
Proof.
  intros Hstep. induction rest as [|lead rest IH]; intros i b; cbn; [lia|].
  specialize (IH (S i) (batch_iteration fetch now tone creativity selectedLeads i lead b)).
  pose proof (batch_iteration_calls tone creativity selectedLeads i lead b) as Hcalls.
  cbv zeta in Hcalls. destruct Hcalls as (_ & _ & _ & _ & reqs & Hworld & Hlen).
  pose proof (world_after_bound m k Hstep reqs (world (run b))) as Hbound.
  rewrite Hworld in Hbound. nia.
Qed.

(** X5. A batch leaves the page idle: the sending flag and the
    progress are reset, the selection is empty, the lead list holds the
    same leads in the same order, and every lead that was selected shows
    [sent] or [failed]. *)
Theorem batch_leaves_page_idle (r : Run W) :
  size (selectedLeadIds (page r)) ≠ 0 →
  let r' := handleBatchSend fetch now r in
  batchSending (page r') = false ∧
  batchProgress (page r') = None ∧
  selectedLeadIds (page r') = ∅ ∧
  lead_id <$> leads (page r') = lead_id <$> leads (page r) ∧
  Forall (λ l, lead_id l ∈ selectedLeadIds (page r) → settled l) (leads (page r')).
Proof.
  intros Hsize r'. subst r'. rewrite (handleBatchSend_started fetch now r Hsize). cbn.
  split; [done|]. split; [done|]. split; [done|].
  split; [by rewrite batch_loop_ids|].
  pose proof (batch_loop_ids (tone (page r)) (creativity (page r)) (selected_leads (page r))
                (selected_leads (page r)) 0
                {| run := on_page (setBatchResults None)
                            (on_page (setBatchProgress
                                        (Some {| bp_total := length (selected_leads (page r));
                                                 bp_completed := 0; bp_failed := 0;
                                                 bp_current := None |}))
                               (on_page (setBatchSending true) r));
                   sentCount := 0; failedCount := 0 |}) as Hids.
  pose proof (batch_loop_settled (tone (page r)) (creativity (page r))
                (selected_leads (page r)) (selected_leads (page r)) (λ _, False) 0
                {| run := on_page (setBatchResults None)
                            (on_page (setBatchProgress
                                        (Some {| bp_total := length (selected_leads (page r));
                                                 bp_completed := 0; bp_failed := 0;
                                                 bp_current := None |}))
                               (on_page (setBatchSending true) r));
                   sentCount := 0; failedCount := 0 |}) as Hsettled.
  cbn in Hids, Hsettled.
  set (final := leads (page (run (batch_loop _ _ _ _ _ _ _ _)))) in *.
  assert (Hin : ∀ l, l ∈ final → lead_id l ∈ selectedLeadIds (page r) →
                     lead_id l ∈ lead_id <$> selected_leads (page r)).
  { intros l Hl Hsel.
    assert (lead_id l ∈ lead_id <$> final) as Hid by (apply list_elem_of_fmap; by exists l).
    rewrite Hids in Hid. apply list_elem_of_fmap in Hid as (l0 & Heq & Hl0).
    apply list_elem_of_fmap. exists l0. split; [done|].
    unfold selected_leads. apply list_elem_of_filter. split; [by rewrite <- Heq|done]. }
  apply Forall_forall. intros l Hl Hsel.
  assert (Hall : Forall (λ l, False → settled l) (leads (page r)))
    by (apply Forall_forall; by intros ?? []).
  specialize (Hsettled Hall). rewrite Forall_forall in Hsettled.
  apply (Hsettled l Hl). right. by apply Hin.
Qed.


(** X7. The tally of a batch counts the statuses the batch recorded:
    [sent] is the number of leads it marked sent, [failed] the number
    it marked failed. *)
Theorem tally_counts_recorded_statuses (r : Run W) :
  size (selectedLeadIds (page r)) ≠ 0 →
  let r' := handleBatchSend fetch now r in
  ∀ tally, batchResults (page r') = Some tally →
    recorded "sent" (statuses (events r')) =
      recorded "sent" (statuses (events r)) + sent tally ∧
    recorded "failed" (statuses (events r')) =
      recorded "failed" (statuses (events r)) + failed tally.
Proof.
  intros Hsize r'. subst r'.
  rewrite (handleBatchSend_started fetch now r Hsize).
  cbn [page events world batchResults showToast setSelectedLeadIds setBatchResults].
  match goal with
  | |- context [batch_loop fetch now ?t ?c ?sel ?i ?rest ?b] =>
      pose proof (batch_loop_calls t c sel rest i b) as Hcalls
  end.
  cbv zeta in Hcalls. cbn [run sentCount failedCount events on_page] in Hcalls. destruct Hcalls as (_ & _ & _ & _ & Hrs & Hrf).
  intros tally [= <-]. cbn [sent failed]. lia.
Qed.

(** X8. Starting a batch again right after a batch does nothing but
    show the toast: the selection was cleared, so no call is made and
    the leads and the tally stay. *)
Theorem second_batch_is_noop (r : Run W) :
  let r1 := handleBatchSend fetch now r in
  let r2 := handleBatchSend fetch now r1 in
  r2 = on_page (showToast "Please select at least one lead") r1 ∧
  events r2 = events r1 ∧
  world r2 = world r1 ∧
  leads (page r2) = leads (page r1) ∧
  batchResults (page r2) = batchResults (page r1).
Proof.
  intros r1 r2.
  assert (Hempty : size (selectedLeadIds (page r1)) = 0).
  { subst r1.
    destruct (decide (size (selectedLeadIds (page r)) = 0)) as [Hz|Hnz].
    - unfold handleBatchSend. by rewrite Hz.
    - rewrite (handleBatchSend_started fetch now r Hnz). cbn. apply size_empty. }
  clearbody r1. subst r2. unfold handleBatchSend. by rewrite Hempty.
Qed.

(** For any quantity of the world that one call of [fetch] raises by at
    most [k], a batch raises it by at most [2 * k] per selected lead. *)
Lemma batch_cost_bound (m : W → nat) (k : nat) (r : Run W) :
  (∀ req w, m (fetch req w).2 ≤ m w + k) →
  m (world (handleBatchSend fetch now r))
  ≤ m (world r) + 2 * k * length (selected_leads (page r)).
Proof.
  intros Hstep.
  destruct (decide (size (selectedLeadIds (page r)) = 0)) as [Hz|Hnz].
  - unfold handleBatchSend. rewrite Hz. cbn. lia.
  - rewrite (handleBatchSend_started fetch now r Hnz). cbn.
    apply (batch_loop_world_bound m k _ _ _ _ Hstep).
Qed.

(** X9. On a lead list without repeated ids, with a selection that
    holds ids of leads only, the total of the tally is the size of the
    selection, the number the send button shows. *)
Theorem batch_total_is_selection_size (r : Run W) :
  NoDup (lead_id <$> leads (page r)) →
  selectedLeadIds (page r) ⊆ list_to_set (lead_id <$> leads (page r)) →
  size (selectedLeadIds (page r)) ≠ 0 →
  ∃ tally,
    batchResults (page (handleBatchSend fetch now r)) = Some tally ∧
    total tally = size (selectedLeadIds (page r)) ∧
    sent tally + failed tally = size (selectedLeadIds (page r)).
Proof.
  intros Hnodup Hsub Hsize.
  rewrite (handleBatchSend_started fetch now r Hsize). cbn.
  eexists. split; [done|]. cbn.
  rewrite <- (selected_leads_length (page r) Hnodup Hsub).
  split; [done|]. by rewrite batch_loop_counts.
Qed.

(** X10. Select-all followed by a batch processes the whole lead list:
    one status is recorded per lead, in the order of the list, and the
    total of the tally is the number of leads. *)
Theorem select_all_then_batch (r : Run W) :
  leads (page r) ≠ [] →
  size (selectedLeadIds (page r)) ≠ length (leads (page r)) →
  let r' := handleBatchSend fetch now (on_page handleSelectAll r) in
  (statuses (events r')).*1 = (statuses (events r)).*1 ++ (lead_id <$> leads (page r)) ∧
  ∃ tally, batchResults (page r') = Some tally ∧ total tally = length (leads (page r)).
Proof.
  intros Hne Hsize r'. subst r'.
  destruct (handleSelectAll_fills (page r) Hsize) as [Hids Hall].
  assert (Hsel : size (selectedLeadIds (page (on_page handleSelectAll r))) ≠ 0).
  { cbn. rewrite Hids. destruct (leads (page r)) as [|l ls]; [done|].
    intros Hz. apply size_empty_iff in Hz. cbn in Hz. set_solver. }
  rewrite (handleBatchSend_started fetch now _ Hsel).
  cbn [page events world on_page batchResults showToast setSelectedLeadIds setBatchResults].
  rewrite Hall.
  split.
  - by rewrite batch_loop_statuses.
  - by eexists.
Qed.

End BatchFacts.

(** * Further properties of the routes *)

Section ForwarderFacts.

Context {BState : Type}.
Variable backend : Endpoint → json → BState → Result Response * BState.
Variable Number : string → number.
Variable toLowerCase : string → string.

Lemma retry_loop_answers n ep body : ∀ response lastError (w : World BState),
  ∃ response' lastError',
    retry_loop backend n ep body response lastError w =
      (response', lastError',
       {| backend_state := (attempts_until_pass backend n ep body (backend_state w)).2;
          trace := trace w ++
                   events_of ep body
                     (attempts_until_pass backend n ep body (backend_state w)).1 |}) ∧
    match last (attempts_until_pass backend n ep body (backend_state w)).1 with
    | None => response' = response ∧ lastError' = lastError
    | Some r =>
        if failed_attempt r
        then lastError' = Some (attempt_error r) ∧ (not_ok response → not_ok response')
        else ∃ x, r = Ok x ∧ response' = Some x ∧ resp_ok x = true
    end.
Proof.
  induction n as [|n IH]; intros response lastError w.
  { exists response, lastError. cbn. rewrite app_nil_r. by destruct w. }
  cbn [attempts_until_pass].
  destruct (backend ep body (backend_state w)) as [r s1] eqn:Hcall.
  destruct (failed_attempt r) eqn:Hfail.
  - rewrite (retry_loop_failed backend n ep body response lastError w r s1 Hcall Hfail).
    destruct (IH (kept_response response r) (Some (attempt_error r))
                (sleep 1000 (after_attempt ep body w s1)))
      as (response' & lastError' & Heq & Hlast).
    cbn [backend_state sleep after_attempt] in Heq, Hlast.
    destruct (attempts_until_pass backend n ep body s1) as [rs s2].
    exists response', lastError'. cbn [fst snd] in *. split.
    + rewrite Heq. cbn. unfold events_of. cbn. rewrite Hfail. cbn.
      by rewrite <- !app_assoc.
    + rewrite last_cons. destruct (last rs) as [r'|].
      * destruct (failed_attempt r'); [|done].
        destruct Hlast as [-> Hnot]. split; [done|].
        intros Hprev. apply Hnot. by apply kept_response_not_ok.
      * destruct Hlast as [-> ->]. rewrite Hfail. split; [done|].
        intros Hprev. by apply kept_response_not_ok.
  - destruct r as [x|e]; [|done]. cbn in Hfail. apply negb_false_iff in Hfail.
    rewrite (retry_loop_passed backend n ep body response lastError w x s1 Hcall Hfail).
    exists (Some x), None. cbn. rewrite Hfail. cbn. split; [done|by exists x].
Qed.

Lemma attempts_until_pass_length n ep body (s : BState) :
  length (attempts_until_pass backend n ep body s).1 ≤ n ∧
  (0 < n → 0 < length (attempts_until_pass backend n ep body s).1).
Proof.
  revert s. induction n as [|n IH]; intros s; cbn; [lia|].
  destruct (backend ep body s) as [r s1].
  destruct (failed_attempt r); [|cbn; lia].
  specialize (IH s1). destruct (attempts_until_pass backend n ep body s1) as [rs s2].
  cbn in *. lia.
Qed.

Lemma events_of_counts ep body rs :
  attempts (events_of ep body rs) = length rs ∧
  delays (events_of ep body rs) = length (List.filter failed_attempt rs).
Proof.
  unfold attempts, delays, events_of.
  induction rs as [|r rs [IH1 IH2]]; [done|]. cbn.
  destruct (failed_attempt r); cbn; rewrite ?IH1, ?IH2; done.
Qed.

(** X11. Whatever the backend does, the forwarder returns the parsed
    payload of the first attempt that passes and makes no attempt after
    it; when none of three attempts passes it throws the error of the
    third. It makes between one and three attempts and sleeps one
    second after each attempt that failed. *)
Theorem forwarder_returns_first_pass ep body (w : World BState) :
  let rs := (attempts_until_pass backend 3 ep body (backend_state w)).1 in
  let s' := (attempts_until_pass backend 3 ep body (backend_state w)).2 in
  ∃ r, last rs = Some r ∧
       forward_json backend ep body w =
         (outcome_of_last r,
          {| backend_state := s'; trace := trace w ++ events_of ep body rs |}) ∧
       1 ≤ length rs ≤ 3 ∧
       attempts (events_of ep body rs) = length rs ∧
       delays (events_of ep body rs) = length (List.filter failed_attempt rs).
Proof.
  intros rs s'.
  destruct (retry_loop_answers 3 ep body None None w)
    as (response' & lastError' & Heq & Hlast).
  fold rs s' in Heq, Hlast.
  pose proof (attempts_until_pass_length 3 ep body (backend_state w)) as [Hle Hpos].
  fold rs in Hle, Hpos.
  destruct (last rs) as [r|] eqn:Hr.
  2:{ apply last_None in Hr. rewrite Hr in Hpos. cbn in Hpos. lia. }
  exists r. split; [done|]. split; [|split; [lia|apply events_of_counts]].
  unfold forward_json, bind, forward_with_retry. rewrite Heq.
  unfold outcome_of_last. destruct (failed_attempt r) eqn:Hfail.
  - destruct Hlast as [-> Hnot]. specialize (Hnot I).
    destruct response' as [y|]; cbn in Hnot; [rewrite Hnot|]; done.
  - destruct Hlast as (x & -> & -> & Hok). by rewrite Hok.
Qed.

Lemma forward_json_world ep body (w : World BState) :
  (forward_json backend ep body w).2 =
    {| backend_state := (attempts_until_pass backend 3 ep body (backend_state w)).2;
       trace := trace w ++
                events_of ep body (attempts_until_pass backend 3 ep body (backend_state w)).1 |}.
Proof.
  unfold forward_json. rewrite bind_lift_snd, forward_with_retry_world.
  by destruct (retry_loop_answers 3 ep body None None w) as (? & ? & -> & _).
Qed.

Lemma attempts_app tr tr' : attempts (tr ++ tr') = attempts tr + attempts tr'.
Proof. unfold attempts. by rewrite List.filter_app, length_app. Qed.

Lemma delays_app tr tr' : delays (tr ++ tr') = delays tr + delays tr'.
Proof. unfold delays. by rewrite List.filter_app, length_app. Qed.

Lemma forward_json_cost ep body (w : World BState) :
  ∃ issued,
    trace (forward_json backend ep body w).2 = trace w ++ issued ∧
    1 ≤ attempts issued ≤ 3 ∧ delays issued ≤ 3.
Proof.
  rewrite forward_json_world. cbn [trace]. eexists. split; [done|].
  destruct (events_of_counts ep body
              (attempts_until_pass backend 3 ep body (backend_state w)).1) as [-> ->].
  pose proof (attempts_until_pass_length 3 ep body (backend_state w)) as [Hle Hpos].
  pose proof (List.filter_length_le failed_attempt
                (attempts_until_pass backend 3 ep body (backend_state w)).1).
  lia.
Qed.

(** X12. A success status with a body that does not parse is not
    retried: the forwarder throws the parse error after its first
    attempt, without a delay. *)
Theorem unparseable_payload_is_not_retried ep body (w : World BState) x s1 e :
  backend ep body (backend_state w) = (Ok x, s1) →
  resp_ok x = true →
  resp_json x = Throw e →
  forward_json backend ep body w =
    (Throw e, {| backend_state := s1; trace := trace w ++ [EvBackendFetch ep body] |}).
Proof.
  intros Hcall Hok Hjson. unfold forward_json, bind, forward_with_retry.
  rewrite (retry_loop_passed backend 2 ep body None None w x s1 Hcall Hok).
  rewrite Hok. unfold lift. by rewrite Hjson.
Qed.

Lemma send_body_defined data : data ≠ JNull → ∃ body, send_body data = Ok body.
Proof.
  intros Hnull. unfold send_body.
  assert (∀ k, ∃ v, get_prop (Some data) k = Ok v) as Hget
    by (intros k; destruct data; cbn; by eauto).
  destruct (Hget "subject") as [v1 ->], (Hget "body") as [v2 ->],
           (Hget "consent_snapshot") as [v3 ->].
  cbn. by eexists.
Qed.

(** X13. The send route calls the backend exactly when the request body
    can be read and is not [null]: otherwise it answers 500 and leaves
    the backend alone; for any other body, whatever its shape, it makes
    between one and three attempts. *)
Theorem send_route_calls_backend_iff_readable request (w : World BState) :
  let out := POST backend request w in
  match request with
  | Throw _ | Ok JNull => out.2 = w ∧ nr_status out.1 = 500%Z
  | Ok _ => 1 ≤ attempts (issued_since w out.2) ≤ 3
  end.
Proof.
  intros out. subst out. destruct request as [data|e]; [|done].
  assert (data ≠ JNull → 1 ≤ attempts (issued_since w (POST backend (Ok data) w).2) ≤ 3)
    as Hgoal.
  { intros Hnull. rewrite POST_world. destruct (send_body_defined data Hnull) as [body ->].
    destruct (forward_json_cost Send body w) as (issued & Htr & Hatt & _).
    unfold issued_since. by rewrite Htr, drop_app_length. }
  destruct data; try done; by apply Hgoal.
Qed.

Lemma map_subject_defined l :
  forallb (λ v, negb (is_null v)) l = true →
  map_subject l = Ok ((λ v, field "subject" v) <$> l).
Proof.
  induction l as [|v l IH]; [done|]. cbn. intros [Hv Hl]%andb_true_iff.
  rewrite (IH Hl). unfold field. by destruct v.
Qed.

Lemma map_subject_null l :
  forallb (λ v, negb (is_null v)) l = false → ∃ e, map_subject l = Throw e.
Proof.
  induction l as [|v l IH]; [done|]. cbn. intros [Hv|Hl]%andb_false_iff.
  - destruct v; try done. by eexists.
  - destruct (IH Hl) as [e ->]. destruct v; cbn; by eexists.
Qed.

(** X14. What the preview route answers once the forwarder has a
    payload. With a [variants] array whose first three elements are not
    [null] it answers 200 with every variant of the payload, the
    subjects of the first three as suggestions ([null] for a variant
    without one), and the model of the payload or the default one. With
    any other payload it answers 500, although the backend call
    succeeded. *)
Theorem preview_route_answer query (w w' : World BState) data :
  let id := default "1" (searchParams_get query "id") in
  let tone := default "Friendly" (searchParams_get query "tone") in
  forward_json backend Generate
    (generate_body id tone
       (Number (default "3" (searchParams_get query "variants")))
       (Number (default "0.6" (searchParams_get query "creativity")))) w = (Ok data, w') →
  let nr := (GET backend Number toLowerCase query w).1 in
  match field "variants" data with
  | Some (JArr vs) =>
      if forallb (λ v, negb (is_null v)) (take 3 vs)
      then nr = {| nr_status := 200;
                   nr_body :=
                     JObj [ ("variants", JArr vs);
                            ("rationale",
                              JStr (rationale toLowerCase (mock_first_name id) tone));
                            ("subject_suggestions",
                              JArr ((λ v, default JNull (field "subject" v)) <$> take 3 vs));
                            ("model",
                              if truthy (field "model" data)
                              then default JNull (field "model" data)
                              else default_model) ] |}
      else nr_status nr = 500%Z
  | _ => nr_status nr = 500%Z
  end.
Proof.
  intros id tone Hfwd nr. subst nr. unfold GET, bind, lift. fold id tone.
  rewrite Hfwd. unfold format_preview, field.
  destruct data as [| | | |items|fs]; try done.
  cbn [get_prop]. destruct (lookup_field "variants" fs) as [variants|] eqn:Hv; [|done].
  cbn. destruct variants as [| | | |vs|]; try done. cbn.
  destruct (forallb (λ v, negb (is_null v)) (take 3 vs)) eqn:Hall.
  - rewrite (map_subject_defined _ Hall). cbn.
    rewrite <- list_fmap_compose.
    destruct (lookup_field "model" fs) as [m|]; cbn; [|done].
    destruct m as [|[]|q|t| |]; cbn; try done.
    + by destruct (Qeq_bool q 0).
    + by destruct (String.eqb t "").
  - by destruct (map_subject_null _ Hall) as [e ->].
Qed.

End ForwarderFacts.

(** ** The single-lead panel *)

Section SingleLeadFacts.

Context {W : Type}.
Variable fetch : ClientRequest → W → Result Response * W.
Variable now : W → string.

Lemma handlePreview_panel lead (s : Session W) res w' :
  let query := [ ("id", string_of_Z (lead_id lead));
                 ("tone", tone (page (inner s)));
                 ("variants", variantsCount (panel s));
                 ("creativity", creativity (page (inner s))) ] in
  fetch (GetEmailPreview query) (world (inner s)) = (res, w') →
  let s' := handlePreview fetch lead s in
  preview (panel s') = preview_loaded res ∧
  selectedLead (panel s') = Some lead ∧
  selectedVariantIndex (panel s') = 0 ∧
  events (inner s') = events (inner s) ++ [EvFetch (GetEmailPreview query)] ∧
  world (inner s') = w'.
Proof.
  intros query Hcall s'. subst s'.
  unfold handlePreview, fetch_preview, bind, page_fetch, lift. fold query. rewrite Hcall.
  destruct res as [x|e]; [|done]. cbn.
  destruct (resp_ok x); [|done].
  by destruct (resp_json x).
Qed.

Lemma handleSend_events lead (s : Session W) variants variant body res w' :
  selectedLead (panel s) = Some lead →
  truthy (preview (panel s)) = true →
  get_prop (preview (panel s)) "variants" = Ok variants →
  get_index variants (selectedVariantIndex (panel s)) = Ok variant →
  single_send_request lead variant (now (world (inner s))) = Ok body →
  fetch (PostSendEmail body) (world (inner s)) = (res, w') →
  events (inner (handleSend fetch now s)) =
    events (inner s) ++ EvFetch (PostSendEmail body) ::
    (if single_send_accepted res then [EvSetStatus (lead_id lead) "sent"] else []).
Proof.
  intros Hlead Hpreview Hvariants Hvariant Hbody Hcall.
  unfold handleSend. rewrite Hlead, Hpreview. cbn [negb].
  unfold try_send, bind, lift, page_fetch.
  rewrite Hvariants. cbn [mbind result_bind]. rewrite Hvariant, Hbody. cbn [world].
  rewrite Hcall.
  destruct res as [x|e]; [|done].
  cbn [single_send_accepted].
  destruct (resp_json x) as [data|e]; [|by rewrite andb_false_r].
  unfold single_send_rejected.
  destruct (resp_ok x); cbn [negb andb]; [|done].
  destruct data as [|b|q|t|l|fs]; cbn; try done.
  all: match goal with |- context [truthy ?v] => destruct (truthy v) end; cbn.
  all: by rewrite <- ?app_assoc.
Qed.

(** X15. [handlePreview] makes one call. It opens the panel on the lead
    with the first variant selected, stores the parsed body of a success
    answer, and on any failure stores [null], dropping the preview shown
    before, and shows the failure toast. It leaves the leads and the
    selection alone. *)
Theorem preview_outcome lead (s : Session W) res w' :
  let query := [ ("id", string_of_Z (lead_id lead));
                 ("tone", tone (page (inner s)));
                 ("variants", variantsCount (panel s));
                 ("creativity", creativity (page (inner s))) ] in
  fetch (GetEmailPreview query) (world (inner s)) = (res, w') →
  let s' := handlePreview fetch lead s in
  preview (panel s') = preview_loaded res ∧
  selectedLead (panel s') = Some lead ∧
  selectedVariantIndex (panel s') = 0 ∧
  loadingPreview (panel s') = false ∧
  events (inner s') = events (inner s) ++ [EvFetch (GetEmailPreview query)] ∧
  world (inner s') = w' ∧
  leads (page (inner s')) = leads (page (inner s)) ∧
  selectedLeadIds (page (inner s')) = selectedLeadIds (page (inner s)) ∧
  toast (page (inner s')) =
    match res with
    | Ok x =>
        if resp_ok x
        then match resp_json x with
             | Ok _ => toast (page (inner s))
             | Throw _ => Some "Failed to fetch preview"
             end
        else Some "Failed to fetch preview"
    | Throw _ => Some "Failed to fetch preview"
    end.
Proof.
  intros query Hcall s'. subst s'.
  unfold handlePreview, fetch_preview, bind, page_fetch, lift. fold query. rewrite Hcall.
  destruct res as [x|e]; [|done]. cbn.
  destruct (resp_ok x); [|done].
  by destruct (resp_json x).
Qed.

(** X16. After a preview that did not load, or loaded a falsy value,
    [handleSend] does nothing at all: no call, no toast. *)
Theorem send_after_failed_preview_is_noop lead (s : Session W) res w' :
  fetch (GetEmailPreview
           [ ("id", string_of_Z (lead_id lead));
             ("tone", tone (page (inner s)));
             ("variants", variantsCount (panel s));
             ("creativity", creativity (page (inner s))) ])
        (world (inner s)) = (res, w') →
  truthy (preview_loaded res) = false →
  handleSend fetch now (handlePreview fetch lead s) = handlePreview fetch lead s.
Proof.
  intros Hcall Hfalsy.
  destruct (handlePreview_panel lead s res w' Hcall) as (Hpreview & Hlead & _).
  unfold handleSend. rewrite Hlead, Hpreview, Hfalsy. done.
Qed.

(** X17. Once [handleSend] has built its request from the selected
    variant, it makes one call. When the answer is accepted the lead is
    marked sent, the panel is closed and the success toast names the
    lead; otherwise the leads, the selected lead and the preview are
    kept and the failure toast is shown. The [sending] flag is reset
    either way. *)
Theorem single_send_outcome lead (s : Session W) variants variant body res w' :
  selectedLead (panel s) = Some lead →
  truthy (preview (panel s)) = true →
  get_prop (preview (panel s)) "variants" = Ok variants →
  get_index variants (selectedVariantIndex (panel s)) = Ok variant →
  single_send_request lead variant (now (world (inner s))) = Ok body →
  fetch (PostSendEmail body) (world (inner s)) = (res, w') →
  let s' := handleSend fetch now s in
  world (inner s') = w' ∧
  sending (panel s') = false ∧
  selectedLeadIds (page (inner s')) = selectedLeadIds (page (inner s)) ∧
  if single_send_accepted res
  then events (inner s') =
         events (inner s) ++ [EvFetch (PostSendEmail body); EvSetStatus (lead_id lead) "sent"] ∧
       leads (page (inner s')) = mark_status (lead_id lead) "sent" (leads (page (inner s))) ∧
       selectedLead (panel s') = None ∧
       preview (panel s') = None ∧
       toast (page (inner s')) = Some ("Email sent to " +:+ first_name lead)
  else events (inner s') = events (inner s) ++ [EvFetch (PostSendEmail body)] ∧
       leads (page (inner s')) = leads (page (inner s)) ∧
       selectedLead (panel s') = Some lead ∧
       preview (panel s') = preview (panel s) ∧
       toast (page (inner s')) = Some "Failed to send email".
Proof.
  intros Hlead Hpreview Hvariants Hvariant Hbody Hcall s'. subst s'.
  unfold handleSend. rewrite Hlead, Hpreview. cbn [negb].
  unfold try_send, bind, lift, page_fetch.
  rewrite Hvariants. cbn [mbind result_bind]. rewrite Hvariant, Hbody. cbn [world].
  rewrite Hcall.
  destruct res as [x|e]; [|done].
  cbn [single_send_accepted].
  destruct (resp_json x) as [data|e]; [|by rewrite andb_false_r].
  unfold single_send_rejected.
  destruct (resp_ok x); cbn [negb andb]; [|done].
  destruct data as [|b|q|t|l|fs]; cbn; try done.
  all: match goal with |- context [truthy ?v] => destruct (truthy v) end; cbn.
  all: by rewrite <- ?app_assoc.
Qed.

(** X18. A send started right after a preview loaded sends the first
    variant of that preview for the lead previewed: one send call is
    added, and its body takes the lead's id and the variant's [id],
    [subject] and [body]. *)
Theorem preview_then_send_uses_first_variant lead (s : Session W) res w1 data v vs fs :
  fetch (GetEmailPreview
           [ ("id", string_of_Z (lead_id lead));
             ("tone", tone (page (inner s)));
             ("variants", variantsCount (panel s));
             ("creativity", creativity (page (inner s))) ])
        (world (inner s)) = (res, w1) →
  preview_loaded res = Some data →
  field "variants" data = Some (JArr (v :: vs)) →
  v = JObj fs →
  let s' := handleSend fetch now (handlePreview fetch lead s) in
  send_calls (events (inner s')) =
    send_calls (events (inner s)) ++
    [ JSON_object
        [ ("leadId", Some (JNum (inject_Z (lead_id lead))));
          ("variantId", lookup_field "id" fs);
          ("subject", lookup_field "subject" fs);
          ("body", lookup_field "body" fs);
          ("consent_snapshot",
            Some (JObj [ ("source", JStr "demo");
                         ("captured_at", JStr (now w1));
                         ("exact_text", JStr "User opted in via demo form") ])) ] ].
Proof.
  intros Hcall Hloaded Hvariants -> s'.
  destruct (handlePreview_panel lead s res w1 Hcall)
    as (Hpreview & Hlead & Hindex & Hevents & Hworld).
  rewrite Hloaded in Hpreview.
  assert (data ≠ JNull) as Hnull by (intros ->; done).
  assert (truthy (Some data) = true ∧
          get_prop (Some data) "variants" = Ok (Some (JArr (JObj fs :: vs)))) as [Htruthy Hget].
  { unfold field in Hvariants. destruct data as [|b|q|t|l|gs]; cbn in *; try done.
    by rewrite Hvariants. }
  set (body := JSON_object _).
  destruct (fetch (PostSendEmail body) w1) as [res2 w2] eqn:Hsend.
  assert (events (inner s') =
          events (inner (handlePreview fetch lead s)) ++ EvFetch (PostSendEmail body) ::
          (if single_send_accepted res2 then [EvSetStatus (lead_id lead) "sent"] else []))
    as ->.
  { pose proof (handleSend_events lead (handlePreview fetch lead s)
                  (Some (JArr (JObj fs :: vs))) (Some (JObj fs)) body res2 w2) as Hout.
    rewrite Hpreview, Hindex, Hworld in Hout.
    exact (Hout Hlead Htruthy Hget eq_refl eq_refl Hsend). }
  rewrite Hevents. unfold send_calls. rewrite !omap_app. cbn.
  destruct (single_send_accepted res2); cbn; by rewrite ?app_nil_r.
Qed.

Lemma handlePreview_request lead (s : Session W) :
  let s' := handlePreview fetch lead s in
  events (inner s') =
    events (inner s) ++
    [EvFetch (GetEmailPreview
                [ ("id", string_of_Z (lead_id lead));
                  ("tone", tone (page (inner s)));
                  ("variants", variantsCount (panel s));
                  ("creativity", creativity (page (inner s))) ])] ∧
  selectedLead (panel s') = Some lead ∧
  variantsCount (panel s') = variantsCount (panel s) ∧
  tone (page (inner s')) = tone (page (inner s)) ∧
  creativity (page (inner s')) = creativity (page (inner s)).
Proof.
  intros s'. subst s'.
  unfold handlePreview, fetch_preview, bind, page_fetch, lift.
  destruct (fetch _ (world (inner s))) as [[x|e] w']; [|done]. cbn.
  destruct (resp_ok x); [|done].
  by destruct (resp_json x).
Qed.

(** X26. [Regenerate] right after a preview repeats the request of the
    preview: the same lead, tone, number of variants and creativity,
    whatever the answer to the first call was. *)
Theorem regenerate_repeats_the_request lead (s : Session W) :
  let query := [ ("id", string_of_Z (lead_id lead));
                 ("tone", tone (page (inner s)));
                 ("variants", variantsCount (panel s));
                 ("creativity", creativity (page (inner s))) ] in
  let s' := handleRegenerate fetch (handlePreview fetch lead s) in
  events (inner s') =
    events (inner s) ++ [EvFetch (GetEmailPreview query); EvFetch (GetEmailPreview query)] ∧
  selectedLead (panel s') = Some lead.
Proof.
  intros query s'. subst s'.
  destruct (handlePreview_request lead s) as (Hev & Hlead & Hcount & Htone & Hcreativity).
  unfold handleRegenerate. rewrite Hlead.
  destruct (handlePreview_request lead (handlePreview fetch lead s))
    as (Hev' & Hlead' & _).
  rewrite Hev', Hev, Hcount, Htone, Hcreativity, <- app_assoc. done.
Qed.

End SingleLeadFacts.

(** X19. The check of [handleSend] and the check of the batch differ
    on exactly two kinds of payload of a success answer: a truthy [ok]
    with a truthy [status] other than ["success"], which only
    [handleSend] accepts, and a falsy [ok] other than [false] with no
    failing [status], which only the batch accepts. *)
Theorem send_checks_compared (res : Result Response) :
  single_send_accepted res ≠ send_accepted res ↔
  ∃ x data,
    res = Ok x ∧ resp_ok x = true ∧ resp_json x = Ok data ∧ is_null data = false ∧
    if truthy (field "ok" data)
    then single_send_accepted res = true ∧
         truthy (field "status" data) = true ∧
         is_string "success" (field "status" data) = false
    else send_accepted res = true ∧
         is_false (field "ok" data) = false ∧
         (truthy (field "status" data) = false ∨
          is_string "success" (field "status" data) = true).
Proof.
  destruct res as [x|e]; cbn.
  2:{ split; [done|]. by intros (x & data & ? & _). }
  destruct (resp_ok x) eqn:Hok; cbn.
  2:{ split; [done|]. intros (x' & data & [= <-] & Hok' & _). congruence. }
  destruct (resp_json x) as [data|e] eqn:Hjson.
  2:{ split; [done|]. intros (x' & data & [= <-] & _ & ? & _). congruence. }
  assert (is_false (field "ok" data) = true → truthy (field "ok" data) = false) as Hfalse.
  { by destruct (field "ok" data) as [[|[]| | | |]|]. }
  assert (single_send_accepted (Ok x) = negb (is_null data) && truthy (field "ok" data) ∧
          send_accepted (Ok x) = negb (is_null data) && negb (signals_failure data))
    as [Hsingle Hbatch].
  { cbn. rewrite Hok, Hjson. by destruct data. }
  cbn in Hsingle, Hbatch. rewrite Hok, Hjson in Hsingle, Hbatch. cbn in Hsingle, Hbatch.
  rewrite Hsingle, Hbatch. clear Hsingle Hbatch.
  unfold signals_failure in *.
  split.
  - intros Hne. exists x, data. do 3 (split; [done|]).
    revert Hne Hfalse.
    destruct (is_null data), (truthy (field "ok" data)), (is_false (field "ok" data)),
             (truthy (field "status" data)), (is_string "success" (field "status" data));
      cbn; intros Hne Hfalse; try done; try (by specialize (Hfalse eq_refl)); intuition.
  - intros (x' & data' & [= <-] & _ & Hjson' & Hn & Hif).
    assert (data' = data) as -> by congruence.
    revert Hn Hif Hfalse.
    destruct (is_null data), (truthy (field "ok" data)), (is_false (field "ok" data)),
             (truthy (field "status" data)), (is_string "success" (field "status" data));
      cbn; intros Hn Hif Hfalse; try done; intuition congruence.
Qed.

(** ** The page in front of the routes *)

Section DeployedPageFacts.

Context {BState : Type}.
Variable backend : Endpoint → json → BState → Result Response * BState.
Variable Number : string → number.
Variable toLowerCase : string → string.
Variable JSON_stringify : json → string.
Variable now : World BState → string.

Lemma route_fetch_trace req (w : World BState) :
  ∃ issued,
    trace (route_fetch backend Number toLowerCase JSON_stringify req w).2 = trace w ++ issued ∧
    attempts issued ≤ 3 ∧ delays issued ≤ 3.
Proof.
  destruct req as [query|body]; cbn.
  - destruct (GET backend Number toLowerCase query w) as [nr w'] eqn:Hget. cbn.
    replace w' with (GET backend Number toLowerCase query w).2 by (by rewrite Hget).
    rewrite GET_world.
    destruct (forward_json_cost backend Generate
                (generate_body
                   (default "1" (searchParams_get query "id"))
                   (default "Friendly" (searchParams_get query "tone"))
                   (Number (default "3" (searchParams_get query "variants")))
                   (Number (default "0.6" (searchParams_get query "creativity")))) w)
      as (issued & -> & ? & ?).
    exists issued. split; [done|lia].
  - destruct (POST backend (Ok body) w) as [nr w'] eqn:Hpost. cbn.
    replace w' with (POST backend (Ok body) w).2 by (by rewrite Hpost).
    rewrite POST_world.
    destruct (send_body body) as [body'|e].
    + destruct (forward_json_cost backend Send body' w) as (issued & -> & ? & ?).
      exists issued. split; [done|lia].
    + exists []. rewrite app_nil_r. cbn. split; [done|lia].
Qed.

(** X20. When the page's calls reach the two routes, a batch over [n]
    leads costs the backend at most [6 * n] requests, and the routes
    sleep at most [6 * n] times: two calls for a lead, three attempts
    for a call. *)
Theorem batch_backend_cost_bound (r : Run (World BState)) :
  let r' := handleBatchSend (route_fetch backend Number toLowerCase JSON_stringify) now r in
  let n := length (selected_leads (page r)) in
  attempts (trace (world r')) ≤ attempts (trace (world r)) + 6 * n ∧
  delays (trace (world r')) ≤ delays (trace (world r)) + 6 * n.
Proof.
  intros r' n. subst r' n. split.
  - apply (batch_cost_bound (route_fetch backend Number toLowerCase JSON_stringify) now
             (λ w, attempts (trace w)) 3).
    intros req w. destruct (route_fetch_trace req w) as (issued & -> & ? & ?).
    rewrite attempts_app. lia.
  - apply (batch_cost_bound (route_fetch backend Number toLowerCase JSON_stringify) now
             (λ w, delays (trace w)) 3).
    intros req w. destruct (route_fetch_trace req w) as (issued & -> & ? & ?).
    rewrite delays_app. lia.
Qed.

(** X21. A send call that reaches the send route is judged by both
    handlers on the backend's own payload when the forwarder returns
    one, and is rejected by both when the forwarder fails, whatever the
    error. *)
Theorem send_through_route_acceptance body body' (w : World BState) :
  send_body body = Ok body' →
  let res := (route_fetch backend Number toLowerCase JSON_stringify (PostSendEmail body) w).1 in
  match (forward_json backend Send body' w).1 with
  | Ok data =>
      single_send_accepted res = negb (is_null data) && truthy (field "ok" data) ∧
      send_accepted res = negb (is_null data) && negb (signals_failure data)
  | Throw _ =>
      single_send_accepted res = false ∧ send_accepted res = false
  end.
Proof.
  intros Hbody res. subst res. cbn.
  unfold POST, bind, lift. rewrite Hbody.
  destruct (forward_json backend Send body' w) as [[data|e] w']; cbn; [|done].
  by destruct data.
Qed.

End DeployedPageFacts.

(** ** The helpers of the page *)

Lemma literal_of_pattern_escaped c p :
  is_syntax_char c = true →
  literal_of_pattern (String "\" (String c p)) = String c <$> literal_of_pattern p.
Proof. intros Hc. cbn [literal_of_pattern]. by rewrite Hc. Qed.

(** X22. [escapeRegExp] returns a pattern made of literal atoms that
    stands for its argument: every syntax character of the argument is
    behind a backslash, and nothing else is changed. *)
Theorem escapeRegExp_is_literal (s : string) :
  literal_of_pattern (escapeRegExp s) = Some s.
Proof.
  induction s as [|c s IH]; [done|].
  cbn [escapeRegExp].
  destruct (is_syntax_char c) eqn:Hc.
  - rewrite (literal_of_pattern_escaped _ _ Hc), IH. done.
  - cbn [literal_of_pattern]. rewrite Hc, IH. done.
Qed.

(** X23. [escapeRegExp] adds one character for each syntax character
    of its argument, and returns its argument exactly when it has
    none. *)
Theorem escapeRegExp_length (s : string) :
  String.length (escapeRegExp s) = String.length s + syntax_chars s ∧
  (escapeRegExp s = s ↔ syntax_chars s = 0).
Proof.
  assert (String.length (escapeRegExp s) = String.length s + syntax_chars s) as Hlen.
  { induction s as [|c s IH]; [done|].
    cbn [escapeRegExp syntax_chars].
    destruct (is_syntax_char c); cbn [String.length]; rewrite IH; lia. }
  split; [done|]. split.
  - intros Heq. rewrite Heq in Hlen. lia.
  - induction s as [|c s IH]; [done|].
    cbn [escapeRegExp syntax_chars].
    destruct (is_syntax_char c); [done|].
    intros Hz. f_equal. apply IH; [|done].
    cbn [escapeRegExp syntax_chars String.length] in Hlen.
    destruct (is_syntax_char c) in Hlen; cbn in Hlen; lia.
Qed.

Lemma existsb_same_string t ts :
  existsb (same_value_zero (JStr t)) (JStr <$> ts) = bool_decide (t ∈ ts).
Proof.
  induction ts as [|u ts IH]; [done|].
  cbn. rewrite IH.
  destruct (String.eqb_spec t u) as [->|Hne]; cbn.
  - symmetry. apply bool_decide_eq_true. by left.
  - apply bool_decide_ext. rewrite elem_of_cons. naive_solver.
Qed.

Lemma foldl_set_add_strings new : ∀ ts,
  ∃ ts', foldl set_add (JStr <$> ts) (JStr <$> new) = JStr <$> ts' ∧
         (NoDup ts → NoDup ts') ∧
         ∀ t, t ∈ ts' ↔ t ∈ ts ∨ t ∈ new.
Proof.
  induction new as [|u new IH]; intros ts.
  - exists ts. split; [done|]. split; [done|]. intros t. rewrite elem_of_nil. tauto.
  - cbn [fmap list_fmap foldl]. unfold set_add at 2.
    change (list_fmap _ _ JStr ts) with (JStr <$> ts).
    rewrite existsb_same_string.
    destruct (bool_decide_reflect (u ∈ ts)) as [Hin|Hnin].
    + destruct (IH ts) as (ts' & Heq & Hnd & Hmem).
      exists ts'. split; [done|]. split; [done|].
      intros t. rewrite Hmem, elem_of_cons. naive_solver.
    + destruct (IH (ts ++ [u])) as (ts' & Heq & Hnd & Hmem).
      exists ts'. split.
      { rewrite <- Heq. by rewrite fmap_app. }
      split.
      { intros Hts. apply Hnd. apply NoDup_app. split; [done|].
        split; [|apply NoDup_singleton].
        intros x Hx ->%list_elem_of_singleton. done. }
      intros t. rewrite Hmem, elem_of_app, list_elem_of_singleton, elem_of_cons. tauto.
Qed.

Lemma add_all_used_tokens_strings variants tss :
  Forall2 has_tokens variants tss →
  ∀ ts, ∃ ts',
    add_all_used_tokens (JStr <$> ts) variants = Ok (JStr <$> ts') ∧
    (NoDup ts → NoDup ts') ∧
    ∀ t, t ∈ ts' ↔ t ∈ ts ∨ t ∈ mjoin tss.
Proof.
  induction 1 as [|v new variants tss [Hnull Hv] Hrest IH]; intros ts.
  - exists ts. split; [done|]. split; [done|]. intros t. cbn. rewrite elem_of_nil. tauto.
  - cbn [add_all_used_tokens]. change (mjoin (new :: tss)) with (new ++ mjoin tss).
    assert (∃ ts1, add_used_tokens (JStr <$> ts) v = Ok (JStr <$> ts1) ∧
                   (NoDup ts → NoDup ts1) ∧ ∀ t, t ∈ ts1 ↔ t ∈ ts ∨ t ∈ new)
      as (ts1 & Hadd & Hnd1 & Hmem1).
    { unfold add_used_tokens.
      assert (get_prop (Some v) "used_tokens" = Ok (field "used_tokens" v)) as ->.
      { unfold field. by destruct v. }
      cbn [mbind result_bind].
      destruct Hv as [->|[-> ->]].
      - cbn [truthy]. destruct (foldl_set_add_strings new ts) as (ts1 & -> & ? & ?).
        by exists ts1.
      - exists ts. split; [done|]. split; [done|]. intros t. rewrite elem_of_nil. tauto. }
    rewrite Hadd. cbn [mbind result_bind].
    destruct (IH ts1) as (ts' & Heq & Hnd & Hmem).
    exists ts'. split; [done|]. split; [by auto|].
    intros t. rewrite Hmem, Hmem1, elem_of_app. tauto.
Qed.

(** X24. On variants whose [used_tokens] are arrays of strings, or are
    missing, [unionUsedTokens] returns an array of strings without
    repetition that holds exactly the tokens of the variants. *)
Theorem unionUsedTokens_is_the_union variants tss :
  Forall2 has_tokens variants tss →
  ∃ ts, unionUsedTokens variants = Ok (JStr <$> ts) ∧
        NoDup ts ∧
        ∀ t, t ∈ ts ↔ ∃ used, used ∈ tss ∧ t ∈ used.
Proof.
  intros Hall.
  destruct (add_all_used_tokens_strings variants tss Hall []) as (ts & Heq & Hnd & Hmem).
  exists ts. split; [done|]. split; [apply Hnd, NoDup_nil_2|].
  intros t. rewrite Hmem, elem_of_nil, list_elem_of_join. naive_solver.
Qed.

Lemma add_used_tokens_throws set v :
  (∃ e, add_used_tokens set v = Throw e) ↔ unreadable_variant v.
Proof.
  unfold add_used_tokens, unreadable_variant.
  destruct (is_null v) eqn:Hn.
  { destruct v; try done. cbn. split; [by left|]. intros _. by exists TypeError. }
  assert (get_prop (Some v) "used_tokens" = Ok (field "used_tokens" v)) as ->
    by (unfold field; by destruct v).
  assert (v ≠ JNull) as Hnull by (by intros ->).
  cbn [mbind result_bind].
  generalize (field "used_tokens" v) as u. intros u.
  destruct (truthy u) eqn:Hu.
  2:{ split; [by intros [e ?]|]. by intros [?|[? _]]. }
  destruct u as [[|b|q|t|l|gs]|].
  all: try (split; [intros _; right; split; [done|by intros ?]|]; intros _; by exists TypeError).
  split; [by intros [e ?]|]. intros [?|[_ Hl]]; [done|]. by destruct (Hl l).
Qed.

(** X25. [unionUsedTokens] throws exactly when one of the variants is
    [null] or has a [used_tokens] that is truthy and is not an array. *)
Theorem unionUsedTokens_throws_iff variants :
  (∃ e, unionUsedTokens variants = Throw e) ↔ Exists unreadable_variant variants.
Proof.
  unfold unionUsedTokens. generalize (@nil json) as set.
  induction variants as [|v variants IH]; intros set.
  - cbn. rewrite Exists_nil. split; [by intros [e ?]|done].
  - cbn [add_all_used_tokens]. rewrite Exists_cons, <- (add_used_tokens_throws set v).
    destruct (add_used_tokens set v) as [set'|e]; cbn [mbind result_bind].
    + rewrite IH. split; [by right|]. intros [[e ?]|?]; done.
    + split; [intros _; left; by exists e|intros _; by exists e].
Qed.

(** ** The further properties on the test doubles *)

Lemma select_all_selects_every_lead_witness :
  let p := Scenario.page_with [Scenario.john; Scenario.sarah] {[1%Z]} in
  selectedLeadIds (handleSelectAll p) = list_to_set (lead_id <$> leads p) ∧
  selected_leads (handleSelectAll p) = leads p.
Proof.
  intros p. apply (select_all_selects_every_lead p). by vm_compute.
Defined.

Lemma select_all_is_a_toggle_witness :
  let p := Scenario.page_with [Scenario.john; Scenario.sarah] {[1%Z; 2%Z]} in
  select_all_checked (handleSelectAll p) = negb (select_all_checked p).
Proof.
  intros p. apply (select_all_is_a_toggle p).
  - apply (bool_decide_unpack _). by vm_compute.
  - done.
Defined.

Lemma select_all_with_repeated_ids_witness :
  let p := Scenario.page_with
             [Scenario.john; Scenario.lead 1 "Jane" "Roe" "jane@example.com"] {[1%Z]} in
  select_all_checked p = false ∧
  selectedLeadIds (handleSelectAll p) = list_to_set (lead_id <$> leads p) ∧
  select_all_checked (handleSelectAll p) = false.
Proof.
  intros p. apply (select_all_with_repeated_ids p).
  - apply (bool_decide_unpack _). by vm_compute.
  - apply (bool_decide_unpack _). by vm_compute.
Defined.

Lemma batch_leaves_page_idle_witness :
  let r := Scenario.start
             (Scenario.page_with [Scenario.john; Scenario.sarah; Scenario.carlos]
                {[1%Z; 3%Z]}) in
  let r' := handleBatchSend (Scenario.fetch_failing_preview (Some 3%Z)) Scenario.clock r in
  batchSending (page r') = false ∧
  batchProgress (page r') = None ∧
  selectedLeadIds (page r') = ∅ ∧
  lead_id <$> leads (page r') = lead_id <$> leads (page r) ∧
  Forall (λ l, lead_id l ∈ selectedLeadIds (page r) → settled l) (leads (page r')).
Proof.
  intros r.
  apply (batch_leaves_page_idle (Scenario.fetch_failing_preview (Some 3%Z)) Scenario.clock r).
  by vm_compute.
Defined.


Lemma tally_counts_recorded_statuses_witness :
  let r := Scenario.start
             (Scenario.page_with [Scenario.john; Scenario.sarah; Scenario.carlos]
                {[1%Z; 3%Z]}) in
  let r' := handleBatchSend (Scenario.fetch_failing_preview (Some 3%Z)) Scenario.clock r in
  let tally := {| sent := 1; failed := 1; total := 2 |} in
  recorded "sent" (statuses (events r')) =
    recorded "sent" (statuses (events r)) + sent tally ∧
  recorded "failed" (statuses (events r')) =
    recorded "failed" (statuses (events r)) + failed tally.
Proof.
  intros r r' tally.
  apply (tally_counts_recorded_statuses
           (Scenario.fetch_failing_preview (Some 3%Z)) Scenario.clock r).
  - by vm_compute.
  - by vm_compute.
Defined.

Lemma batch_total_is_selection_size_witness :
  let r := Scenario.start
             (Scenario.page_with [Scenario.john; Scenario.sarah; Scenario.carlos]
                {[1%Z; 3%Z]}) in
  ∃ tally,
    batchResults (page (handleBatchSend (Scenario.fetch_failing_preview (Some 3%Z))
                          Scenario.clock r)) = Some tally ∧
    total tally = size (selectedLeadIds (page r)) ∧
    sent tally + failed tally = size (selectedLeadIds (page r)).
Proof.
  intros r.
  apply (batch_total_is_selection_size
           (Scenario.fetch_failing_preview (Some 3%Z)) Scenario.clock r).
  - apply (bool_decide_unpack _). by vm_compute.
  - apply (bool_decide_unpack _). by vm_compute.
  - by vm_compute.
Defined.

Lemma select_all_then_batch_witness :
  let r := Scenario.start
             (Scenario.page_with [Scenario.john; Scenario.sarah; Scenario.carlos] {[2%Z]}) in
  let r' := handleBatchSend (Scenario.fetch_failing_preview (Some 3%Z)) Scenario.clock
              (on_page handleSelectAll r) in
  (statuses (events r')).*1 = (statuses (events r)).*1 ++ (lead_id <$> leads (page r)) ∧
  ∃ tally, batchResults (page r') = Some tally ∧ total tally = length (leads (page r)).
Proof.
  intros r.
  apply (select_all_then_batch
           (Scenario.fetch_failing_preview (Some 3%Z)) Scenario.clock r).
  - done.
  - by vm_compute.
Defined.

Lemma unparseable_payload_is_not_retried_witness :
  forward_json Fixtures.always_garbled Generate (JObj []) Stub.start =
    (Throw (Err "Unexpected token < in JSON at position 0"),
     {| backend_state := 1;
        trace := trace Stub.start ++ [EvBackendFetch Generate (JObj [])] |}).
Proof.
  apply (unparseable_payload_is_not_retried Fixtures.always_garbled Generate (JObj [])
           Stub.start Fixtures.garbled 1); reflexivity.
Defined.

Lemma preview_route_answer_witness :
  (GET (Stub.flaky 0) StringToNumber.Number toLowerCase_ascii (sample_query "3")
     Stub.start).1 =
  {| nr_status := 200;
     nr_body :=
       JObj [ ("variants", JArr [Stub.variant_for (Some (JStr "Sarah"))]);
              ("rationale", JStr (rationale toLowerCase_ascii "Sarah" "Friendly"));
              ("subject_suggestions", JArr [JStr "Sarah"]);
              ("model", JStr "stub-model") ] |}.
Proof.
  exact (preview_route_answer (Stub.flaky 0) StringToNumber.Number toLowerCase_ascii
           (sample_query "3") Stub.start
           {| backend_state := 1;
              trace := [EvBackendFetch Generate Fixtures.sarah_generate_body] |}
           (Stub.generated Fixtures.sarah_generate_body) eq_refl).
Defined.

Lemma preview_outcome_witness :
  let fetch := Scenario.fetch_failing_preview None in
  let s := Fixtures.session (Scenario.page_with [Scenario.john] ∅) in
  let s' := handlePreview fetch Scenario.john s in
  preview (panel s') = Some Scenario.one_variant ∧
  selectedLead (panel s') = Some Scenario.john ∧
  selectedVariantIndex (panel s') = 0 ∧
  loadingPreview (panel s') = false ∧
  events (inner s') =
    events (inner s) ++
    [EvFetch (GetEmailPreview [ ("id", "1"); ("tone", "Friendly");
                                ("variants", "3"); ("creativity", "0.6") ])] ∧
  world (inner s') = () ∧
  leads (page (inner s')) = leads (page (inner s)) ∧
  selectedLeadIds (page (inner s')) = selectedLeadIds (page (inner s)) ∧
  toast (page (inner s')) = toast (page (inner s)).
Proof.
  intros fetch s.
  exact (preview_outcome fetch Scenario.john s
           (Ok (Stub.success Scenario.one_variant "")) () eq_refl).
Defined.

Lemma send_after_failed_preview_is_noop_witness :
  let fetch := Scenario.fetch_failing_preview (Some 1%Z) in
  let s := Fixtures.session (Scenario.page_with [Scenario.john] ∅) in
  handleSend fetch Scenario.clock (handlePreview fetch Scenario.john s) =
  handlePreview fetch Scenario.john s.
Proof.
  intros fetch s.
  eapply (send_after_failed_preview_is_noop fetch Scenario.clock Scenario.john s);
    reflexivity.
Defined.

Lemma single_send_outcome_witness :
  let fetch := Scenario.fetch_rejecting 2 (JObj [("ok", JBool false)]) in
  let s := Fixtures.previewed Scenario.john (Scenario.page_with [Scenario.john] ∅) in
  let s' := handleSend fetch Scenario.clock s in
  ∃ body,
    world (inner s') = () ∧
    sending (panel s') = false ∧
    selectedLeadIds (page (inner s')) = selectedLeadIds (page (inner s)) ∧
    events (inner s') =
      events (inner s) ++ [EvFetch (PostSendEmail body); EvSetStatus 1 "sent"] ∧
    leads (page (inner s')) = mark_status 1 "sent" (leads (page (inner s))) ∧
    selectedLead (panel s') = None ∧
    preview (panel s') = None ∧
    toast (page (inner s')) = Some "Email sent to John".
Proof.
  intros fetch s. eexists.
  eapply (single_send_outcome fetch Scenario.clock Scenario.john s _ _ _
            (Ok (Stub.success (JObj [("ok", JBool true)]) "")) ());
    reflexivity.
Defined.

Lemma preview_then_send_uses_first_variant_witness :
  let fetch := Scenario.fetch_failing_preview None in
  let s := Fixtures.session (Scenario.page_with [Scenario.john] ∅) in
  let s' := handleSend fetch Scenario.clock (handlePreview fetch Scenario.john s) in
  send_calls (events (inner s')) =
    send_calls (events (inner s)) ++
    [ JObj [ ("leadId", JNum 1);
             ("variantId", JStr "v1");
             ("subject", JStr "Hello");
             ("body", JStr "Hello");
             ("consent_snapshot",
               JObj [ ("source", JStr "demo");
                      ("captured_at", JStr "2024-01-01T00:00:00.000Z");
                      ("exact_text", JStr "User opted in via demo form") ]) ] ].
Proof.
  intros fetch s.
  exact (preview_then_send_uses_first_variant fetch Scenario.clock Scenario.john s
           (Ok (Stub.success Scenario.one_variant "")) () Scenario.one_variant
           (Stub.variant_for (Some (JStr "Hello"))) []
           [ ("id", JStr "v1"); ("subject", JStr "Hello"); ("body", JStr "Hello");
             ("used_tokens", JArr [JStr "first_name"]) ]
           eq_refl eq_refl eq_refl eq_refl).
Defined.

Lemma send_through_route_acceptance_witness :
  let res := (route_fetch (Stub.flaky 0) StringToNumber.Number toLowerCase_ascii
                (λ _, "") (PostSendEmail Fixtures.send_request) Stub.start).1 in
  single_send_accepted res = false ∧ send_accepted res = true.
Proof.
  intros res.
  exact (send_through_route_acceptance (Stub.flaky 0) StringToNumber.Number
           toLowerCase_ascii (λ _, "") Fixtures.send_request
           (JObj [ ("recipient_email", JStr "test@example.com");
                   ("subject", JStr "Hi"); ("body", JStr "B") ])
           Stub.start eq_refl).
Defined.

Lemma unionUsedTokens_is_the_union_witness :
  let variants := [ Stub.variant_for (Some (JStr "A"));
                    JObj [("id", JStr "v2")];
                    JObj [("used_tokens", JArr [JStr "city"; JStr "first_name"])] ] in
  let tss := [ ["first_name"]; []; ["city"; "first_name"] ] in
  ∃ ts, unionUsedTokens variants = Ok (JStr <$> ts) ∧
        NoDup ts ∧
        ∀ t, t ∈ ts ↔ ∃ used, used ∈ tss ∧ t ∈ used.
Proof.
  intros variants tss.
  apply (unionUsedTokens_is_the_union variants tss).
  constructor; [split; [done|by left]|].
  constructor; [split; [done|by right]|].
  constructor; [split; [done|by left]|].
  constructor.
Defined.
